(** * Driver drowsiness detection: the streaming detection pipeline

    A shallow embedding of the real-time pipeline of the repository:

    - [api/routes/drowsiness.py]: [_maybe_resize], [_detect_labels_and_boxes]
      (box rescaling, keyword classification of the labels, alert cooldown),
      [_trigger_esp32] and the websocket session loop [ws_infer];
    - [api/models/detection_model.py]: [DrowsinessDetector.detect] with its
      smoothing buffer, [preprocess_frame], [update_thresholds] and
      [reset_statistics].

    Conventions of the embedding.

    - Python [int] is [Z]; Python [str] is [string] (class names are ASCII).
    - Python [float] is a rational number.  Products and quotients are
      rounded to binary64 by [b64] (53 significant bits, ties to even; the
      exponent range is not bounded, the values of this program being far
      from overflow and underflow).  The conversion of an image size to
      [float] is exact (sizes are below 2^53), and so is the difference of
      two clock readings (they are equal up to a factor of two, or the
      subtrahend is the initial 0.0).
    - What lives outside the repository (OpenCV's decoder and resampler, the
      YOLO model) is a parameter of the development, the class [External].
    - A Python exception is the [Raise] outcome of a call.
    - [send_json] succeeds: a broken connection shows at [receive_bytes].
    - A websocket session is one coroutine and is embedded as a function of
      the messages it receives; the alert state it reads and writes is
      threaded through its passes, which is the behaviour of a session that
      runs alone.  The alert block itself is also embedded statement by
      statement, for two worker threads under a schedule, since the code
      holds no lock there. *)

From Stdlib Require Import ZArith QArith Qround Qabs Qpower.
From Stdlib Require Import List String Ascii DecimalString Bool Lia Lqa.
From Stdlib.Strings Require Import Byte.
Import ListNotations.

(** * Part I: the embedding *)

(** ** Python strings *)

Module PyStr.

(** [c.lower()] on one ASCII character. *)
Definition lower_ascii (c : ascii) : ascii :=
  let n := nat_of_ascii c in
  if ((65 <=? n) && (n <=? 90))%nat then ascii_of_nat (n + 32) else c.

(** [s.lower()]. *)
Fixpoint lower (s : string) : string :=
  match s with
  | EmptyString => EmptyString
  | String c t => String (lower_ascii c) (lower t)
  end.

(** [sep.join(parts)]. *)
Fixpoint join (sep : string) (parts : list string) : string :=
  match parts with
  | [] => EmptyString
  | [p] => p
  | p :: rest => (p ++ sep ++ join sep rest)%string
  end.

(** [text.startswith(k)]. *)
Fixpoint startswith (k text : string) : bool :=
  match k, text with
  | EmptyString, _ => true
  | String _ _, EmptyString => false
  | String a k', String b t' => Ascii.eqb a b && startswith k' t'
  end.

(** [k in text]: [k] occurs in [text] as a contiguous substring. *)
Fixpoint contains (k text : string) : bool :=
  startswith k text ||
  match text with
  | EmptyString => false
  | String _ t' => contains k t'
  end.

(** The declarative reading of [k in text]. *)
Definition Substring (k text : string) : Prop :=
  exists pre post, text = (pre ++ k ++ post)%string.

End PyStr.

(** ** Calls that may raise *)

Inductive exn : Type :=
| WebSocketDisconnect
| Exception (msg : string).

(** [str(e)]. *)
Definition str_of_exn (e : exn) : string :=
  match e with
  | WebSocketDisconnect => EmptyString
  | Exception msg => msg
  end.

Inductive outcome (A : Type) : Type :=
| Ret (a : A)
| Raise (e : exn).

Arguments Ret {A} a.
Arguments Raise {A} e.

Definition bind {A B : Type} (m : outcome A) (k : A -> outcome B) : outcome B :=
  match m with
  | Ret a => k a
  | Raise e => Raise e
  end.

Notation "x <- m ;; k" := (bind m (fun x => k))
  (at level 61, m at next level, right associativity).
Notation "' p <- m ;; k" := (bind m (fun p => k))
  (at level 61, p pattern, m at next level, right associativity).

(** ** Binary64 arithmetic on rationals *)

Module Float.

Open Scope Q_scope.

(** Nearest integer, ties to even. *)
Definition rint (y : Q) : Z :=
  let f := Qfloor y in
  match Qcompare (y - inject_Z f) (1 # 2) with
  | Lt => f
  | Gt => (f + 1)%Z
  | Eq => if Z.even f then f else (f + 1)%Z
  end.

(** The exponent [e] of the binade of [a > 0]: 2^52 <= a / 2^e < 2^53. *)
Definition binade (a : Q) : Z :=
  let e0 := (Z.log2 (Qnum a) - Z.log2 (Zpos (Qden a)) - 52)%Z in
  if Qle_bool (2 ^ 52) (a / 2 ^ e0) then e0 else (e0 - 1)%Z.

Definition round_pos (a : Q) : Q :=
  let e := binade a in
  Qred (inject_Z (rint (a / 2 ^ e)) * 2 ^ e).

(** Rounding to the nearest binary64 number. *)
Definition b64 (x : Q) : Q :=
  match Qnum x with
  | Z0 => 0
  | Zpos _ => round_pos x
  | Zneg _ => - round_pos (- x)
  end.

(** The unit roundoff of binary64, 2^-53. *)
Definition eps : Q := 1 # 9007199254740992.

(** [x * y] and [x / y] on floats. *)
Definition fmul (x y : Q) : Q := b64 (x * y).
Definition fdiv (x y : Q) : Q := b64 (x / y).

(** [int(x)]: truncation toward zero. *)
Definition int_of_float (x : Q) : Z := Z.quot (Qnum x) (Zpos (Qden x)).

(** [x < y] as a test. *)
Definition Qlt_bool (x y : Q) : bool := negb (Qle_bool y x).

End Float.

Import Float.

(** ** [DrowsinessDetector] (api/models/detection_model.py) *)

Module Detector.

Open Scope Q_scope.

(** The fields of the detector that [detect] reads and writes; the running
    average of wall-clock inference times is left out. *)
Record DrowsinessDetector : Type := mkDetector {
  drowsiness_threshold : Q;
  alert_threshold : Q;
  frame_buffer : list bool;
  buffer_size : Z;
  total_frames : Z;
  drowsy_frames : Z
}.

(** [__init__]. *)
Definition init : DrowsinessDetector :=
  {| drowsiness_threshold := b64 (5 # 10);
     alert_threshold := b64 (7 # 10);
     frame_buffer := [];
     buffer_size := 5;
     total_frames := 0;
     drowsy_frames := 0 |}.

(** A detected box as the loop reads it: [int(box.cls[0])] and
    [float(box.conf[0])]. *)
Definition box : Type := (Z * Q)%type.

(** [max(a, b)]. *)
Definition py_max (a b : Q) : Q := if Qlt_bool a b then b else a.

(** The body of the loop over the boxes: the state is
    [(is_drowsy, max_confidence)]. *)
Definition scan_box (thr : Q) (acc : bool * Q) (bx : box) : bool * Q :=
  let '(is_drowsy, max_confidence) := acc in
  let '(class_id, confidence) := bx in
  if ((class_id =? 1) || (class_id =? 2) || (class_id =? 3))%Z
     && Qlt_bool thr confidence
  then (true, py_max max_confidence confidence)
  else if (class_id =? 0)%Z
  then (is_drowsy, py_max max_confidence confidence)
  else (is_drowsy, max_confidence).

(** [sum(self.frame_buffer)]: the number of [True] entries. *)
Fixpoint py_sum (l : list bool) : Z :=
  match l with
  | [] => 0
  | b :: t => ((if b then 1 else 0) + py_sum t)%Z
  end.

(** [self.frame_buffer.append(is_drowsy)], then [pop(0)] when the buffer is
    longer than [buffer_size]. *)
Definition buffer_append (size : Z) (buf : list bool) (is_drowsy : bool) : list bool :=
  let buf := buf ++ [is_drowsy] in
  if (Z.of_nat (List.length buf) >? size)%Z then tl buf else buf.

(** [drowsy_count >= (self.buffer_size * 0.6)]. *)
Definition smoothed (size : Z) (buf : list bool) : bool :=
  Qle_bool (fmul (inject_Z size) (b64 (6 # 10))) (inject_Z (py_sum buf)).

(** The smoothing step of [detect]: the detector with the verdict of the
    frame pushed, and [smoothed_drowsy]. *)
Definition push (d : DrowsinessDetector) (is_drowsy : bool) : DrowsinessDetector * bool :=
  let buf := buffer_append (buffer_size d) (frame_buffer d) is_drowsy in
  let smoothed_drowsy := smoothed (buffer_size d) buf in
  ({| drowsiness_threshold := drowsiness_threshold d;
      alert_threshold := alert_threshold d;
      frame_buffer := buf;
      buffer_size := buffer_size d;
      total_frames := total_frames d + 1;
      drowsy_frames := if smoothed_drowsy then drowsy_frames d + 1 else drowsy_frames d |},
   smoothed_drowsy).

(** [detect].  [results] is what the model and the loop over the boxes
    yield for the frame: [Raise] when the frame is missing or empty, or when
    the model call or the loop raises.  [overlay] is how the call of
    [_add_status_overlay] ends; it comes after the verdict of the frame has
    been appended to the buffer and before the statistics are updated.  An
    exception is caught at the end of [detect], which then returns
    [(False, 0.0)]; what was written before the exception stays written.
    The result is [(smoothed_drowsy, max_confidence)]. *)
Definition detect (d : DrowsinessDetector) (results : outcome (list box))
    (overlay : outcome unit)
  : DrowsinessDetector * (bool * Q) :=
  match results with
  | Raise _ => (d, (false, 0))
  | Ret boxes =>
      let '(is_drowsy, max_confidence) :=
        fold_left (scan_box (drowsiness_threshold d)) boxes (false, 0) in
      match overlay with
      | Ret _ =>
          let '(d', smoothed_drowsy) := push d is_drowsy in
          (d', (smoothed_drowsy, max_confidence))
      | Raise _ =>
          ({| drowsiness_threshold := drowsiness_threshold d;
              alert_threshold := alert_threshold d;
              frame_buffer := buffer_append (buffer_size d) (frame_buffer d) is_drowsy;
              buffer_size := buffer_size d;
              total_frames := total_frames d;
              drowsy_frames := drowsy_frames d |},
           (false, 0))
      end
  end.


End Detector.

(** ** The streaming pipeline (api/routes/drowsiness.py) *)

(** An image array: [frame.shape[:2]] is [(height, width)]. *)
Record Frame (P : Type) : Type := mkFrame {
  height : Z;
  width : Z;
  pixels : P
}.

Arguments mkFrame {P} height width pixels.
Arguments height {P} f.
Arguments width {P} f.
Arguments pixels {P} f.

(** What the model returns for one image ([results[0]]). *)
Module YOLO.

(** A row of [boxes.xyxy]: [x1, y1, x2, y2]. *)
Definition Box : Type := (Q * Q * Q * Q)%type.

Record Boxes : Type := mkBoxes {
  cls : option (list Q);
  conf : option (list Q);
  xyxy : list Box
}.

Record Results : Type := mkResults {
  names : list (Z * string);
  boxes : option Boxes
}.

End YOLO.

(** The libraries the pipeline calls. *)
Class External : Type := {
  Pixels : Type;
  (** [cv2.imdecode(np.frombuffer(data, np.uint8), cv2.IMREAD_COLOR)]:
      an image, [None], or a raised [cv2.error]. *)
  cv2_imdecode : list byte -> outcome (option (Frame Pixels));
  (** [cv2.resize(frame, (new_w, new_h), interpolation=cv2.INTER_AREA)]. *)
  cv2_resize : Frame Pixels -> Z * Z -> outcome (Frame Pixels);
  (** The image [cv2.resize] returns has the size it was asked for. *)
  cv2_resize_shape : forall f new_w new_h r,
    cv2_resize f (new_w, new_h) = Ret r -> width r = new_w /\ height r = new_h;
  (** [model(frame)[0]] under the model lock. *)
  model : Frame Pixels -> outcome YOLO.Results
}.

(** The dictionary [_detect_labels_and_boxes] returns. *)
Record Det : Type := mkDet {
  labels : list string;
  boxes : list YOLO.Box;
  confs : list Q;
  drowsy : bool
}.

Definition empty_det : Det :=
  {| labels := []; boxes := []; confs := []; drowsy := false |}.

(** The module constants read from the environment. *)
Record Config : Type := mkConfig {
  ESP32_ALERT_LEVEL : string;
  ALERT_COOLDOWN_S : Q
}.

(** The defaults: ["crit"] and [float("2.0")]. *)
Definition default_config : Config :=
  {| ESP32_ALERT_LEVEL := "crit"; ALERT_COOLDOWN_S := 2 |}.

(** The process-wide alert state: the global [_last_alert_ts], and the
    levels of the [GET /alert] requests made so far, oldest first. *)
Record AlertState : Type := mkAlert {
  _last_alert_ts : Q;
  esp32_requests : list string
}.

Definition initial_alert : AlertState :=
  {| _last_alert_ts := 0; esp32_requests := [] |}.

(** [_trigger_esp32]: one request to the actuator; a failure of the request
    is logged and swallowed, so the call returns either way. *)
Definition _trigger_esp32 (level : string) (a : AlertState) : AlertState :=
  {| _last_alert_ts := _last_alert_ts a;
     esp32_requests := esp32_requests a ++ [level] |}.

(** The block under [if is_drowsy:] with [now = time.time()]. *)
Definition alert_with_cooldown (cfg : Config) (now : Q) (a : AlertState) : AlertState :=
  if Qle_bool (ALERT_COOLDOWN_S cfg) (now - _last_alert_ts a) then
    let a' := _trigger_esp32 (ESP32_ALERT_LEVEL cfg) a in
    {| _last_alert_ts := now; esp32_requests := esp32_requests a' |}
  else a.

(** *** The alert block, statement by statement

    [_detect_labels_and_boxes] runs in worker threads, one for every upload
    request and websocket frame in hand, and holds no lock in the alert
    block.  A thread in the block has read the clock; it stands before the
    test, before the request, before the store, or past the block. *)
Inductive AlertPc : Type :=
| AtTest (now : Q)
| AtRequest (now : Q)
| AtStore (now : Q)
| Past.

(** The next statement of a thread: the test
    [(now - _last_alert_ts) >= ALERT_COOLDOWN_S], the call of
    [_trigger_esp32], the store [_last_alert_ts = now]. *)
Definition alert_statement (cfg : Config) (pc : AlertPc) (a : AlertState)
  : AlertPc * AlertState :=
  match pc with
  | AtTest now =>
      if Qle_bool (ALERT_COOLDOWN_S cfg) (now - _last_alert_ts a)
      then (AtRequest now, a) else (Past, a)
  | AtRequest now => (AtStore now, _trigger_esp32 (ESP32_ALERT_LEVEL cfg) a)
  | AtStore now =>
      (Past, {| _last_alert_ts := now; esp32_requests := esp32_requests a |})
  | Past => (Past, a)
  end.

Inductive Thread : Type := First | Second.

(** Two threads in the block; the schedule names, statement by statement,
    the thread that runs. *)
Fixpoint run_threads (cfg : Config) (schedule : list Thread) (p1 p2 : AlertPc)
    (a : AlertState) : AlertPc * AlertPc * AlertState :=
  match schedule with
  | [] => (p1, p2, a)
  | First :: rest =>
      let '(p1', a') := alert_statement cfg p1 a in run_threads cfg rest p1' p2 a'
  | Second :: rest =>
      let '(p2', a') := alert_statement cfg p2 a in run_threads cfg rest p1 p2' a'
  end.

(** [names[k]]. *)
Fixpoint dict_get (names : list (Z * string)) (k : Z) : option string :=
  match names with
  | [] => None
  | (k', v) :: rest => if (k' =? k)%Z then Some v else dict_get rest k
  end.

(** [str(KeyError(k))] for an integer key: the decimal numeral of [k]. *)
Definition key_error (k : Z) : exn :=
  Exception (NilZero.string_of_int (Z.to_int k)).

(** [[names[int(c)] for c in cls]]. *)
Fixpoint label_list (names : list (Z * string)) (cls : list Q) : outcome (list string) :=
  match cls with
  | [] => Ret []
  | c :: rest =>
      match dict_get names (int_of_float c) with
      | None => Raise (key_error (int_of_float c))
      | Some l => ls <- label_list names rest ;; Ret (l :: ls)
      end
  end.

(** [b[0] *= inv; b[1] *= inv; b[2] *= inv; b[3] *= inv]. *)
Definition rescale_box (inv : Q) (b : YOLO.Box) : YOLO.Box :=
  let '(x1, y1, x2, y2) := b in
  (fmul x1 inv, fmul y1 inv, fmul x2 inv, fmul y2 inv).

(** Scaling the boxes back to the original canvas. *)
Definition rescale_boxes (sx sy : Q) (xyxy : list YOLO.Box) : list YOLO.Box :=
  if negb (Qeq_bool sx 1) || negb (Qeq_bool sy 1) then
    let inv := fdiv 1 sx in
    map (rescale_box inv) xyxy
  else xyxy.

Definition drowsy_keywords : list string :=
  ["drowsy"; "sleep"; "asleep"; "closed"; "yawn"; "tired"]%string.

(** The frame verdict: [any(k in text for k in drowsy_keywords)] on
    [text = " ".join(labels).lower()]. *)
Definition is_drowsy (labels : list string) : bool :=
  let text := PyStr.lower (PyStr.join " " labels) in
  existsb (fun k => PyStr.contains k text) drowsy_keywords.

Section Pipeline.

Context {E : External}.
Variable cfg : Config.

Definition _maybe_resize (frame : Frame Pixels) (max_side : Z)
  : outcome (Frame Pixels * Q * Q) :=
  let h := height frame in
  let w := width frame in
  if (Z.max h w >? max_side)%Z then
    let scale := fdiv (inject_Z max_side) (inject_Z (Z.max h w)) in
    let new_w := int_of_float (fmul (inject_Z w) scale) in
    let new_h := int_of_float (fmul (inject_Z h) scale) in
    resized <- cv2_resize frame (new_w, new_h) ;;
    Ret (resized, scale, scale)
  else Ret (frame, 1%Q, 1%Q).

(** [_detect_labels_and_boxes] on a frame, with the clock reading [now] and
    the alert state [a]; every [raise] comes before the alert block, so a
    raised exception leaves the alert state as it was. *)
Definition _detect_labels_and_boxes (frame : Frame Pixels) (now : Q) (a : AlertState)
  : outcome (Det * AlertState) :=
  '(fr, sx, sy) <- _maybe_resize frame 640 ;;
  r <- model fr ;;
  match YOLO.boxes r with
  | None => Ret (empty_det, a)
  | Some bx =>
      match YOLO.cls bx with
      | None => Ret (empty_det, a)
      | Some cls =>
          let conf :=
            match YOLO.conf bx with
            | Some c => c
            | None => repeat 0%Q (List.length cls)
            end in
          let xyxy := rescale_boxes sx sy (YOLO.xyxy bx) in
          labels <- label_list (YOLO.names r) cls ;;
          let drowsy := is_drowsy labels in
          let a' := if drowsy then alert_with_cooldown cfg now a else a in
          Ret ({| labels := labels; boxes := xyxy; confs := conf; drowsy := drowsy |}, a')
      end
  end.

(** A message to the client. *)
Inductive Json : Type :=
| JError (error : string)
| JDet (d : Det)
| JDetError (error : string) (d : Det).

(** The state a session reads and writes: the alert state of the process
    and the messages sent to the client, oldest first. *)
Record World : Type := mkWorld {
  alert : AlertState;
  outbox : list Json
}.

Definition send_json (j : Json) (w : World) : World :=
  {| alert := alert w; outbox := outbox w ++ [j] |}.

(** What one [receive_bytes] yields, and what the clock reads while the
    message is handled. *)
Record Arrival : Type := mkArrival {
  received : outcome (list byte);
  clock : Q
}.

(** How one pass through the body of [while True] leaves: at its end or at
    a [continue], with the value of [busy]; or by an exception. *)
Inductive Flow : Type :=
| Next (busy : bool) (w : World)
| Abort (e : exn) (w : World).

Definition ws_iteration (busy : bool) (w : World) (a : Arrival) : Flow :=
  match received a with
  | Raise e => Abort e w
  | Ret data =>
      match cv2_imdecode data with
      | Raise e => Abort e w
      | Ret None => Next busy (send_json (JError "decode_failed") w)
      | Ret (Some frame) =>
          if busy then Next busy w
          else
            let '(det, al) :=
              match _detect_labels_and_boxes frame (clock a) (alert w) with
              | Ret (det, al) => (JDet det, al)
              | Raise e => (JDetError (str_of_exn e) empty_det, alert w)
              end in
            Next false (send_json det {| alert := al; outbox := outbox w |})
      end
  end.

(** The loop over the arrivals of a session; when they are used up the
    session is waiting in [receive_bytes]. *)
Fixpoint ws_loop (busy : bool) (w : World) (script : list Arrival) : Flow :=
  match script with
  | [] => Next busy w
  | a :: rest =>
      match ws_iteration busy w a with
      | Next busy' w' => ws_loop busy' w' rest
      | Abort e w' => Abort e w'
      end
  end.

(** How [ws_infer] stands after the arrivals: waiting for the next message,
    or returned. *)
Inductive Session : Type :=
| Receiving (w : World)
| Returned (w : World).

(** [ws_infer]: the loop inside [try], with the two handlers. *)
Definition ws_infer (w : World) (script : list Arrival) : outcome Session :=
  match ws_loop false w script with
  | Next _ w' => Ret (Receiving w')
  | Abort WebSocketDisconnect w' => Ret (Returned w')
  | Abort (Exception msg) w' => Ret (Returned (send_json (JError msg) w'))
  end.

End Pipeline.

(** ** Notions of the specification *)

(** The last [n] entries of a list. *)
Definition lastn {A : Type} (n : nat) (l : list A) : list A :=
  skipn (List.length l - n) l.

(** The uppercase of a lowercase ASCII letter; any other character is left
    as it is. *)
Definition upper_ascii (c : ascii) : ascii :=
  let n := nat_of_ascii c in
  if ((97 <=? n) && (n <=? 122))%nat then ascii_of_nat (n - 32) else c.

(** [o] is the word [k] up to the case of its letters: character by
    character, [o] has the character of [k] or its uppercase. *)
Fixpoint case_variant (k o : string) : Prop :=
  match k, o with
  | EmptyString, EmptyString => True
  | String a k', String b o' => (b = a \/ b = upper_ascii a) /\ case_variant k' o'
  | _, _ => False
  end.

(** No character of [s] is an uppercase ASCII letter. *)
Fixpoint no_uppercase (s : string) : bool :=
  match s with
  | EmptyString => true
  | String c t =>
      negb ((65 <=? nat_of_ascii c) && (nat_of_ascii c <=? 90))%nat && no_uppercase t
  end.

(** Every character of [s] is a lowercase ASCII letter. *)
Fixpoint lowercase_word (s : string) : bool :=
  match s with
  | EmptyString => true
  | String c t =>
      ((97 <=? nat_of_ascii c) && (nat_of_ascii c <=? 122))%nat && lowercase_word t
  end.

(** The coordinate transform of the resize of a [w] x [h] image to
    [new_w] x [new_h]: the point [(x, y)] of the image goes to
    [(x * new_w / w, y * new_h / h)]. *)
Definition resize_box (w h new_w new_h : Z) (b : YOLO.Box) : YOLO.Box :=
  let '(x1, y1, x2, y2) := b in
  (x1 * inject_Z new_w / inject_Z w, y1 * inject_Z new_h / inject_Z h,
   x2 * inject_Z new_w / inject_Z w, y2 * inject_Z new_h / inject_Z h).

(** [x] is [y] up to the relative error [tol]. *)
Definition close_to (tol x y : Q) : Prop := Qabs (x - y) <= tol * Qabs y.

(** [b] is [c] up to the relative error [tx] on the horizontal coordinates
    and [ty] on the vertical ones. *)
Definition box_close (tx ty : Q) (b c : YOLO.Box) : Prop :=
  let '(x1, y1, x2, y2) := b in
  let '(u1, v1, u2, v2) := c in
  close_to tx x1 u1 /\ close_to ty y1 v1 /\ close_to tx x2 u2 /\ close_to ty y2 v2.

(** All four coordinates of a box lie in the image of the given width and
    height. *)
Definition box_within (W H : Q) (b : YOLO.Box) : Prop :=
  let '(x1, y1, x2, y2) := b in
  ((0 <= x1 <= W)%Q /\ 0 <= x2 <= W) /\ (0 <= y1 <= H /\ 0 <= y2 <= H).

(** ** A sample environment

    A toy codec, resampler and model to run the pipeline on: a message is a
    four-byte header (height and width, two bytes each, most significant
    first) followed by a payload; the first payload byte selects what the
    model reports. *)

Module Sample.

Open Scope Z_scope.

Definition word (hi lo : byte) : Z :=
  256 * Z.of_N (Byte.to_N hi) + Z.of_N (Byte.to_N lo).

(** The decoder: it raises on an empty buffer, as OpenCV's [imdecode]
    asserts that the buffer is not empty, and returns [None] on a buffer
    that holds no image. *)
Definition imdecode (data : list byte) : outcome (option (Frame (list byte))) :=
  match data with
  | [] => Raise (Exception "cv2.error: !buf.empty() in function imdecode_")
  | h1 :: h0 :: w1 :: w0 :: body =>
      if (0 <? word h1 h0) && (0 <? word w1 w0)
      then Ret (Some (mkFrame (word h1 h0) (word w1 w0) body))
      else Ret None
  | _ => Ret None
  end.

(** The resampler keeps the payload; it raises on an empty size. *)
Definition resize (f : Frame (list byte)) (dsize : Z * Z)
  : outcome (Frame (list byte)) :=
  let '(new_w, new_h) := dsize in
  if (0 <? new_w) && (0 <? new_h)
  then Ret (mkFrame new_h new_w (pixels f))
  else Raise (Exception "cv2.error: !dsize.empty() in function resize").

Definition class_names : list (Z * string) :=
  [(0, "alert"); (1, "drowsy"); (2, "eyes_closed"); (3, "yawning")]%string.

Definition one_box (c : Z) (p : Q) (b : YOLO.Box) : YOLO.Results :=
  YOLO.mkResults class_names
    (Some (YOLO.mkBoxes (Some [inject_Z c]) (Some [p]) [b])).

(** The model, by the first payload byte: 0 nothing detected, 1 a drowsy
    face filling the image, 2 an alert face, 3 the call raises, otherwise no
    boxes object.  Image coordinates are those of the image the model is
    given. *)
Definition yolo (f : Frame (list byte)) : outcome YOLO.Results :=
  let w := inject_Z (width f) in
  let h := inject_Z (height f) in
  match pixels f with
  | x00 :: _ => Ret (YOLO.mkResults class_names (Some (YOLO.mkBoxes (Some []) (Some []) [])))
  | x01 :: _ => Ret (one_box 1 (b64 (9 # 10)) (0, 0, w, h)%Q)
  | x02 :: _ => Ret (one_box 0 (b64 (8 # 10)) (0, 0, w, h)%Q)
  | x03 :: _ => Raise (Exception "CUDA error: out of memory")
  | _ => Ret (YOLO.mkResults class_names None)
  end.

Lemma resize_shape (f : Frame (list byte)) (new_w new_h : Z) (r : Frame (list byte)) :
  resize f (new_w, new_h) = Ret r -> width r = new_w /\ height r = new_h.
Proof.
  unfold resize. destruct ((0 <? new_w) && (0 <? new_h)); [|discriminate].
  intros H. injection H as <-. split; reflexivity.
Qed.

Definition env : External :=
  {| Pixels := list byte;
     cv2_imdecode := imdecode;
     cv2_resize := resize;
     cv2_resize_shape := resize_shape;
     model := yolo |}.

(** A message carrying an image of the given size and payload. *)
Definition message (h w : Z) (payload : list byte) : list byte :=
  let b (n : Z) : byte :=
    match Byte.of_N (Z.to_N n) with Some x => x | None => x00 end in
  b (h / 256) :: b (h mod 256) :: b (w / 256) :: b (w mod 256) :: payload.

Definition arrival (data : list byte) (now : Q) : Arrival :=
  {| received := Ret data; clock := now |}.

Definition world0 : World := {| alert := initial_alert; outbox := [] |}.

End Sample.

(** ** Further code of the two modules *)

(** [c in s] for a single character [c]. *)
Fixpoint mem_char (c : ascii) (s : string) : bool :=
  match s with
  | EmptyString => false
  | String x t => Ascii.eqb x c || mem_char c t
  end.

(** *** The upload path of api/routes/drowsiness.py *)

(** How a request handler leaves: with a value, with an [HTTPException], or
    with another exception. *)
Inductive response (A : Type) : Type :=
| Done (a : A)
| HTTPException (status_code : Z) (detail : string)
| Unhandled (e : exn).

Arguments Done {A} a.
Arguments HTTPException {A} status_code detail.
Arguments Unhandled {A} e.

(** [_read_all] on an upload whose file holds [data]. *)
Definition _read_all (data : list byte) : response (list byte) :=
  match data with
  | [] => HTTPException 400 "Empty file."
  | _ :: _ => Done data
  end.

(** [_decode_image]. *)
Definition _decode_image {E : External} (data : list byte) : response (Frame Pixels) :=
  match cv2_imdecode data with
  | Raise e => Unhandled e
  | Ret None => HTTPException 400 "Unsupported or corrupt image."
  | Ret (Some img) => Done img
  end.

(** The first two statements of [detect_image_json]:
    [data = _read_all(file); img = _decode_image(data)]. *)
Definition read_and_decode {E : External} (data : list byte) : response (Frame Pixels) :=
  match _read_all data with
  | Done data => _decode_image data
  | HTTPException s d => HTTPException s d
  | Unhandled e => Unhandled e
  end.

(** *** Further methods of [DrowsinessDetector] *)

(** [preprocess_frame]; [resize] is [cv2.resize] with its default
    interpolation, and [None] is a missing frame. *)
Definition preprocess_frame {P : Type}
    (resize : Frame P -> Z * Z -> outcome (Frame P))
    (frame : option (Frame P)) : outcome (option (Frame P)) :=
  match frame with
  | None => Ret None
  | Some frame =>
      let height := height frame in
      let width := width frame in
      if (Z.max height width >? 640)%Z then
        let scale := fdiv 640 (inject_Z (Z.max height width)) in
        let new_width := int_of_float (fmul (inject_Z width) scale) in
        let new_height := int_of_float (fmul (inject_Z height) scale) in
        frame <- resize frame (new_width, new_height) ;;
        Ret (Some frame)
      else Ret (Some frame)
  end.

(** [update_thresholds]. *)
Definition update_thresholds (d : Detector.DrowsinessDetector)
    (drowsiness_threshold alert_threshold : option Q) : Detector.DrowsinessDetector :=
  {| Detector.drowsiness_threshold :=
       match drowsiness_threshold with
       | Some t => t
       | None => Detector.drowsiness_threshold d
       end;
     Detector.alert_threshold :=
       match alert_threshold with
       | Some t => t
       | None => Detector.alert_threshold d
       end;
     Detector.frame_buffer := Detector.frame_buffer d;
     Detector.buffer_size := Detector.buffer_size d;
     Detector.total_frames := Detector.total_frames d;
     Detector.drowsy_frames := Detector.drowsy_frames d |}.

(** [reset_statistics]. *)
Definition reset_statistics (d : Detector.DrowsinessDetector) : Detector.DrowsinessDetector :=
  {| Detector.drowsiness_threshold := Detector.drowsiness_threshold d;
     Detector.alert_threshold := Detector.alert_threshold d;
     Detector.frame_buffer := [];
     Detector.buffer_size := Detector.buffer_size d;
     Detector.total_frames := 0;
     Detector.drowsy_frames := 0 |}.

(** What one call of [detect] meets: what the model and the loop over the
    boxes yield, and how [_add_status_overlay] ends. *)
Definition Call : Type := (outcome (list Detector.box) * outcome unit)%type.

(** A call in which nothing raises. *)
Definition processed (bxs : list Detector.box) : Call := (Ret bxs, Ret tt).

(** A run of [detect] calls, one per frame; the results are the
    [(smoothed_drowsy, max_confidence)] returned, in order. *)
Fixpoint detect_all (d : Detector.DrowsinessDetector) (frames : list Call)
  : Detector.DrowsinessDetector * list (bool * Q) :=
  match frames with
  | [] => (d, [])
  | r :: rest =>
      let '(d1, out) := Detector.detect d (fst r) (snd r) in
      let '(d2, outs) := detect_all d1 rest in
      (d2, out :: outs)
  end.

(** The frame verdict [detect] computes from the boxes of one frame. *)
Definition frame_verdict (thr : Q) (bxs : list Detector.box) : bool :=
  fst (fold_left (Detector.scan_box thr) bxs (false, 0)).

(** The true entries among the verdicts. *)
Definition count_true (vs : list bool) : nat := List.length (filter (fun b => b) vs).

(** *** Observations of a session *)

(** The state a pass through the loop body, or the loop, leaves. *)
Definition flow_world (f : Flow) : World :=
  match f with
  | Next _ w => w
  | Abort _ w => w
  end.

(** How it leaves: the value of [busy], or the exception. *)
Definition flow_exit (f : Flow) : bool + exn :=
  match f with
  | Next busy _ => inl busy
  | Abort e _ => inr e
  end.

(** The exception an arrival makes the loop body raise outside the worker
    call, if any: the one [receive_bytes] raises, or the one the decoder
    raises on the bytes received. *)
Definition arrival_raises {E : External} (a : Arrival) : option exn :=
  match received a with
  | Raise e => Some e
  | Ret data =>
      match cv2_imdecode data with
      | Raise e => Some e
      | Ret _ => None
      end
  end.

(** The state of a session as [ws_infer] leaves it. *)
Definition session_world (s : Session) : World :=
  match s with
  | Receiving w => w
  | Returned w => w
  end.

(** The frame verdicts a run of [detect] calls appends to the buffer: one
    per frame whose boxes were read, whether the overlay then raises or not,
    none for a frame on which [detect] gives up before. *)
Fixpoint pushed_verdicts (thr : Q) (frames : list Call) : list bool :=
  match frames with
  | [] => []
  | (Ret bxs, _) :: rest => frame_verdict thr bxs :: pushed_verdicts thr rest
  | (Raise _, _) :: rest => pushed_verdicts thr rest
  end.

(** The calls of a run in which nothing raises. *)
Fixpoint completed (frames : list Call) : nat :=
  match frames with
  | [] => 0
  | (Ret _, Ret _) :: rest => S (completed rest)
  | _ :: rest => completed rest
  end.

(** A box that [detect] counts for [max_confidence]: the alert class, or a
    drowsiness class above the threshold. *)
Definition counted_box (thr : Q) (bx : Detector.box) : bool :=
  let '(class_id, confidence) := bx in
  (((class_id =? 1) || (class_id =? 2) || (class_id =? 3))%Z && Qlt_bool thr confidence)
  || (class_id =? 0)%Z.

(** The results with a true verdict among the messages sent. *)
Definition drowsy_replies (sent : list Json) : nat :=
  List.length
    (filter (fun j => match j with JDet d => drowsy d | _ => false end) sent).

(** * Part II: properties *)

(** ** Strings *)

Lemma startswith_spec (k : string) : forall text,
  PyStr.startswith k text = true <-> exists post, text = (k ++ post)%string.
Proof.
  induction k as [|a k IH]; intros text; simpl.
  - split; [intros _; now exists text | reflexivity].
  - destruct text as [|b t].
    + split; [discriminate | intros [post H]; discriminate].
    + rewrite andb_true_iff, Ascii.eqb_eq, IH. split.
      * intros [-> [post ->]]. now exists post.
      * intros [post H]. injection H as -> ->. split; [reflexivity | now exists post].
Qed.

Lemma contains_spec (k : string) : forall text,
  PyStr.contains k text = true <-> PyStr.Substring k text.
Proof.
  unfold PyStr.Substring. induction text as [|b t IH]; simpl.
  - rewrite orb_false_r, startswith_spec. split.
    + intros [post H]. now exists EmptyString, post.
    + intros [pre [post H]]. destruct pre; simpl in H.
      * now exists post.
      * discriminate.
  - rewrite orb_true_iff, startswith_spec, IH. split.
    + intros [[post H] | [pre [post H]]].
      * now exists EmptyString, post.
      * exists (String b pre), post. simpl. now rewrite H.
    + intros [pre [post H]]. destruct pre as [|c pre]; simpl in H.
      * left. now exists post.
      * right. injection H as _ ->. now exists pre, post.
Qed.

Lemma is_drowsy_spec (labels : list string) :
  is_drowsy labels = true <->
  exists k, In k drowsy_keywords /\
            PyStr.Substring k (PyStr.lower (PyStr.join " " labels)).
Proof.
  unfold is_drowsy. rewrite existsb_exists. split.
  - intros [k [Hin Hc]]. exists k. split; [exact Hin | now apply contains_spec].
  - intros [k [Hin Hs]]. exists k. split; [exact Hin | now apply contains_spec].
Qed.

(** The verdict that [_detect_labels_and_boxes] reports is the keyword match
    on the labels it reports, whatever the clock and the alert state. *)
Lemma detect_drowsy_of_labels {E : External} (cfg : Config)
    (frame : Frame Pixels) (now : Q) (a : AlertState) (det : Det) (a' : AlertState) :
  _detect_labels_and_boxes cfg frame now a = Ret (det, a') ->
  drowsy det = is_drowsy (labels det).
Proof.
  unfold _detect_labels_and_boxes, bind.
  destruct (_maybe_resize frame 640) as [[[fr sx] sy]|]; [|discriminate].
  destruct (model fr) as [r|]; [|discriminate].
  destruct (YOLO.boxes r) as [bx|].
  - destruct (YOLO.cls bx) as [cls|].
    + destruct (label_list (YOLO.names r) cls) as [ls|]; [|discriminate].
      intros H. injection H as <- _. reflexivity.
    + intros H. injection H as <- _. reflexivity.
  - intros H. injection H as <- _. reflexivity.
Qed.

Lemma str_app_assoc (a b c : string) : ((a ++ b) ++ c = a ++ (b ++ c))%string.
Proof. induction a as [|x a IH]; simpl; [reflexivity | now rewrite IH]. Qed.

Lemma str_app_nil_r (a : string) : (a ++ "" = a)%string.
Proof. induction a as [|x a IH]; simpl; [reflexivity | now rewrite IH]. Qed.

(** Two ways of cutting one string: one cut lies before the other. *)
Lemma str_app_eq_app (a : string) : forall b c d : string,
  (a ++ b = c ++ d)%string ->
  (exists x, c = a ++ x /\ b = x ++ d)%string \/
  (exists x, a = c ++ x /\ d = x ++ b)%string.
Proof.
  induction a as [|x a IH]; intros b c d H; simpl in H.
  - left. exists c. split; [reflexivity | exact H].
  - destruct c as [|y c]; simpl in H.
    + right. exists (String x a). split; [reflexivity | now rewrite <- H].
    + injection H as -> H. destruct (IH b c d H) as [(z & -> & ->) | (z & -> & ->)].
      * left. exists z. split; reflexivity.
      * right. exists z. split; reflexivity.
Qed.

Lemma mem_char_app (c : ascii) (a b : string) :
  mem_char c (a ++ b) = mem_char c a || mem_char c b.
Proof.
  induction a as [|x a IH]; simpl; [reflexivity|].
  rewrite IH. now rewrite orb_assoc.
Qed.

Lemma substring_app_l (k a b : string) :
  PyStr.Substring k a -> PyStr.Substring k (a ++ b).
Proof.
  intros (pre & post & ->). exists pre, (post ++ b)%string.
  now rewrite !str_app_assoc.
Qed.

Lemma substring_app_r (k a b : string) :
  PyStr.Substring k b -> PyStr.Substring k (a ++ b).
Proof.
  intros (pre & post & ->). exists (a ++ pre)%string, post.
  now rewrite !str_app_assoc.
Qed.

(** An occurrence of [k] in [a ++ c ++ b], where the character [c] does not
    occur in [k], lies within [a] or within [b]. *)
Lemma substring_split_at (c : ascii) (k a b : string) :
  k <> EmptyString -> mem_char c k = false ->
  PyStr.Substring k (a ++ String c b) ->
  PyStr.Substring k a \/ PyStr.Substring k b.
Proof.
  intros Hne Hc (pre & post & H). symmetry in H.
  destruct (str_app_eq_app pre (k ++ post) a (String c b) H)
    as [(x & Ha & Hk) | (x & Hpre & Hb)].
  - (* the occurrence starts within [a] *)
    destruct (str_app_eq_app k post x (String c b) Hk)
      as [(y & Hx & Hpost) | (y & Hk' & Hb)].
    + left. exists pre, y. now rewrite Ha, Hx.
    + destruct y as [|c' y]; simpl in Hb.
      * left. exists pre, EmptyString. rewrite Ha, Hk', !str_app_nil_r. reflexivity.
      * injection Hb as <- _. rewrite Hk', mem_char_app in Hc. simpl in Hc.
        rewrite Ascii.eqb_refl in Hc. rewrite orb_true_r in Hc. discriminate.
  - (* the occurrence starts after [a] *)
    destruct x as [|c' x]; simpl in Hb.
    + destruct k as [|k0 k]; [contradiction|]. simpl in Hb. injection Hb as <- _.
      simpl in Hc. rewrite Ascii.eqb_refl in Hc. discriminate.
    + injection Hb as _ ->. right. exists x, post. reflexivity.
Qed.

Lemma lower_app (a b : string) :
  PyStr.lower (a ++ b) = (PyStr.lower a ++ PyStr.lower b)%string.
Proof. induction a as [|x a IH]; simpl; [reflexivity | now rewrite IH]. Qed.

Lemma substring_empty (k : string) :
  PyStr.Substring k EmptyString -> k = EmptyString.
Proof.
  intros (pre & post & H). destruct pre; simpl in H; [|discriminate].
  destruct k; [reflexivity | discriminate].
Qed.

(** For a keyword without a space: it occurs in the lowercased join of the
    labels exactly when it occurs in one lowercased label. *)
Lemma substring_join_iff (k : string) (ls : list string) :
  k <> EmptyString -> mem_char " " k = false ->
  PyStr.Substring k (PyStr.lower (PyStr.join " " ls)) <->
  exists l, In l ls /\ PyStr.Substring k (PyStr.lower l).
Proof.
  intros Hne Hsp.
  induction ls as [|p rest IH].
  - simpl. split.
    + intros H. apply substring_empty in H. contradiction.
    + intros (l & [] & _).
  - destruct rest as [|q rest'].
    + simpl. split.
      * intros H. exists p. split; [now left | exact H].
      * intros (l & [<- | []] & H). exact H.
    + change (PyStr.join " " (p :: q :: rest'))
        with (p ++ " " ++ PyStr.join " " (q :: rest'))%string.
      rewrite lower_app. change (" " ++ PyStr.join " " (q :: rest'))%string
        with (String " " (PyStr.join " " (q :: rest'))).
      change (PyStr.lower (String " " (PyStr.join " " (q :: rest'))))
        with (String " " (PyStr.lower (PyStr.join " " (q :: rest')))).
      split.
      * intros H. destruct (substring_split_at " " k _ _ Hne Hsp H) as [Hp | Hr].
        -- exists p. split; [now left | exact Hp].
        -- apply IH in Hr. destruct Hr as (l & Hin & Hl).
           exists l. split; [now right | exact Hl].
      * intros (l & [<- | Hin] & Hl).
        -- now apply substring_app_l.
        -- apply substring_app_r.
           change (String " " (PyStr.lower (PyStr.join " " (q :: rest'))))
             with (" " ++ PyStr.lower (PyStr.join " " (q :: rest')))%string.
           apply substring_app_r. apply IH. exists l. split; assumption.
Qed.

Lemma keywords_plain (k : string) :
  In k drowsy_keywords -> k <> EmptyString /\ mem_char " " k = false.
Proof.
  unfold drowsy_keywords. simpl.
  intros [<- | [<- | [<- | [<- | [<- | [<- | []]]]]]]; split; (discriminate || reflexivity).
Qed.

(** [lower] character by character. *)
Lemma lower_ascii_eq_iff (a b : ascii) :
  (97 <= nat_of_ascii a <= 122)%nat ->
  PyStr.lower_ascii b = a <-> b = a \/ b = upper_ascii a.
Proof.
  intros Ha. unfold PyStr.lower_ascii, upper_ascii. cbv zeta.
  pose proof (nat_ascii_bounded b) as Hb.
  replace ((97 <=? nat_of_ascii a) && (nat_of_ascii a <=? 122))%nat with true
    by (symmetry; apply andb_true_iff; split; apply Nat.leb_le; lia).
  destruct ((65 <=? nat_of_ascii b) && (nat_of_ascii b <=? 90))%nat eqn:U.
  - apply andb_true_iff in U. destruct U as [U1 U2].
    apply Nat.leb_le in U1. apply Nat.leb_le in U2. split.
    + intros H. right. rewrite <- H.
      rewrite nat_ascii_embedding by lia.
      replace (nat_of_ascii b + 32 - 32)%nat with (nat_of_ascii b) by lia.
      now rewrite ascii_nat_embedding.
    + intros [H | H].
      * subst b. lia.
      * assert (Hn : nat_of_ascii b = (nat_of_ascii a - 32)%nat).
        { rewrite H. apply nat_ascii_embedding. lia. }
        rewrite Hn. replace (nat_of_ascii a - 32 + 32)%nat with (nat_of_ascii a) by lia.
        apply ascii_nat_embedding.
  - split; [intros H; now left|]. intros [H | H]; [exact H|]. exfalso.
    assert (Hn : nat_of_ascii b = (nat_of_ascii a - 32)%nat).
    { rewrite H. apply nat_ascii_embedding. lia. }
    apply andb_false_iff in U. destruct U as [U | U]; apply Nat.leb_gt in U; lia.
Qed.

(** A word of lowercase letters is the lowercase of its case variants, and
    of nothing else. *)
Lemma lower_eq_case_variant (k : string) : forall o : string,
  lowercase_word k = true ->
  PyStr.lower o = k <-> case_variant k o.
Proof.
  induction k as [|a k IH]; intros [|b o] Hk; cbn [PyStr.lower case_variant].
  - tauto.
  - split; [discriminate | contradiction].
  - split; [discriminate | contradiction].
  - cbn [lowercase_word] in Hk. apply andb_true_iff in Hk. destruct Hk as [Ha Hk].
    apply andb_true_iff in Ha. destruct Ha as [A1 A2].
    apply Nat.leb_le in A1. apply Nat.leb_le in A2.
    rewrite <- (IH o Hk), <- (lower_ascii_eq_iff a b (conj A1 A2)). split.
    + intros H. injection H as H1 H2. now split.
    + intros [H1 H2]. now rewrite H1, H2.
Qed.

Lemma lower_app_inv (a : string) : forall l b : string,
  PyStr.lower l = (a ++ b)%string ->
  exists la lb, l = (la ++ lb)%string /\ PyStr.lower la = a /\ PyStr.lower lb = b.
Proof.
  induction a as [|x a IH]; intros l b H.
  - exists EmptyString, l. repeat split. exact H.
  - destruct l as [|c l]; [discriminate|]. cbn [PyStr.lower append] in H.
    injection H as Hc H. destruct (IH l b H) as (la & lb & -> & Ha & Hb).
    exists (String c la), lb. cbn [PyStr.lower append]. rewrite Hc, Ha.
    repeat split. exact Hb.
Qed.

(** A word of lowercase letters occurs in the lowercase of a label exactly
    when one of its case variants occurs in the label. *)
Lemma substring_lower_iff (k l : string) :
  lowercase_word k = true ->
  PyStr.Substring k (PyStr.lower l) <->
  exists pre o post, l = (pre ++ o ++ post)%string /\ case_variant k o.
Proof.
  intros Hk. split.
  - intros (pre' & post' & H).
    destruct (lower_app_inv pre' l (k ++ post') H) as (pre & rest & -> & _ & Hrest).
    destruct (lower_app_inv k rest post' Hrest) as (o & post & -> & Ho & _).
    exists pre, o, post. split; [reflexivity|].
    now apply lower_eq_case_variant.
  - intros (pre & o & post & -> & Hv).
    apply (lower_eq_case_variant k o Hk) in Hv.
    exists (PyStr.lower pre), (PyStr.lower post). now rewrite !lower_app, Hv.
Qed.

Lemma keywords_lowercase (k : string) :
  In k drowsy_keywords -> lowercase_word k = true.
Proof.
  unfold drowsy_keywords. simpl.
  intros [<- | [<- | [<- | [<- | [<- | [<- | []]]]]]]; reflexivity.
Qed.

(** [lower] leaves no uppercase letter, and changes a string by the case of
    its letters only. *)
Lemma lower_is_lowercase (s : string) :
  no_uppercase (PyStr.lower s) = true /\ case_variant (PyStr.lower s) s.
Proof.
  induction s as [|b s [IH1 IH2]]; [split; [reflexivity | exact I]|].
  cbn [PyStr.lower no_uppercase case_variant]. rewrite IH1, andb_true_r.
  pose proof (nat_ascii_bounded b) as Hb.
  unfold PyStr.lower_ascii, upper_ascii. cbv zeta.
  destruct ((65 <=? nat_of_ascii b) && (nat_of_ascii b <=? 90))%nat eqn:U.
  - apply andb_true_iff in U. destruct U as [U1 U2].
    apply Nat.leb_le in U1. apply Nat.leb_le in U2.
    rewrite nat_ascii_embedding by lia.
    replace ((65 <=? nat_of_ascii b + 32) && (nat_of_ascii b + 32 <=? 90))%nat with false
      by (symmetry; apply andb_false_iff; right; apply Nat.leb_gt; lia).
    replace ((97 <=? nat_of_ascii b + 32) && (nat_of_ascii b + 32 <=? 122))%nat with true
      by (symmetry; apply andb_true_iff; split; apply Nat.leb_le; lia).
    split; [reflexivity|]. split; [|exact IH2]. right.
    replace (nat_of_ascii b + 32 - 32)%nat with (nat_of_ascii b) by lia.
    now rewrite ascii_nat_embedding.
  - rewrite U. split; [reflexivity|]. split; [now left | exact IH2].
Qed.

(** C10: the frame verdict is the case-insensitive keyword match on the
    labels.  It is true exactly when the lowercased join of the labels
    contains one of the six keywords, the join being the labels in order
    with one space between two of them; that is, exactly when some label
    contains a keyword up to the case of its letters.  Lowercasing leaves no
    uppercase letter and changes nothing but the case of letters.  The
    verdict is false on the empty label list, and the verdict of a processed
    frame is this function of the labels of the frame alone, for every clock
    reading and alert state. *)
Theorem frame_verdict_is_keyword_match {E : External} (cfg : Config)
    (frame : Frame Pixels) (now : Q) (a : AlertState) (ls : list string) :
  (is_drowsy ls = true <->
   exists k, In k ["drowsy"; "sleep"; "asleep"; "closed"; "yawn"; "tired"]%string /\
             PyStr.Substring k (PyStr.lower (PyStr.join " " ls)))
  /\ (is_drowsy ls = true <->
      exists l k pre o post,
        In l ls
        /\ In k ["drowsy"; "sleep"; "asleep"; "closed"; "yawn"; "tired"]%string
        /\ l = (pre ++ o ++ post)%string /\ case_variant k o)
  /\ PyStr.join " " ls = String.concat " " ls
  /\ (forall s : string,
         no_uppercase (PyStr.lower s) = true /\ case_variant (PyStr.lower s) s)
  /\ is_drowsy [] = false
  /\ match _detect_labels_and_boxes cfg frame now a with
     | Ret (det, _) => drowsy det = is_drowsy (labels det)
     | Raise _ => True
     end.
Proof.
  split; [apply is_drowsy_spec|]. split.
  { rewrite is_drowsy_spec. split.
    - intros (k & Hk & Hs). destruct (keywords_plain k Hk) as [Hne Hsp].
      apply (substring_join_iff k ls Hne Hsp) in Hs. destruct Hs as (l & Hin & Hl).
      apply (substring_lower_iff k l (keywords_lowercase k Hk)) in Hl.
      destruct Hl as (pre & o & post & Hl & Hv).
      exists l, k, pre, o, post. repeat split; assumption.
    - intros (l & k & pre & o & post & Hin & Hk & Hl & Hv).
      destruct (keywords_plain k Hk) as [Hne Hsp].
      exists k. split; [exact Hk|].
      apply (substring_join_iff k ls Hne Hsp). exists l. split; [exact Hin|].
      apply (substring_lower_iff k l (keywords_lowercase k Hk)).
      exists pre, o, post. split; assumption. }
  split.
  { induction ls as [|p rest IH]; [reflexivity|].
    destruct rest as [|q rest']; [reflexivity|].
    change (PyStr.join " " (p :: q :: rest'))
      with (p ++ " " ++ PyStr.join " " (q :: rest'))%string.
    rewrite IH. reflexivity. }
  split; [exact lower_is_lowercase|]. split; [reflexivity|].
  destruct (_detect_labels_and_boxes cfg frame now a) as [[det a']|] eqn:H; [|exact I].
  exact (detect_drowsy_of_labels cfg frame now a det a' H).
Qed.

(** A label in another case: ["Eyes_CLOSED"] holds the case variant
    ["CLOSED"] of the keyword ["closed"]. *)
Lemma frame_verdict_is_keyword_match_witness :
  is_drowsy ["ALERT"; "Eyes_CLOSED"]%string = true
  /\ is_drowsy [] = false.
Proof.
  pose proof (@frame_verdict_is_keyword_match Sample.env default_config
                (mkFrame 480 640 [x01]) 100 initial_alert
                ["ALERT"; "Eyes_CLOSED"]%string) as (_ & H & _ & _ & H0 & _).
  split; [|exact H0]. apply H.
  exists "Eyes_CLOSED"%string, "closed"%string, "Eyes_"%string, "CLOSED"%string, ""%string.
  split; [right; left; reflexivity|].
  split; [do 3 right; left; reflexivity|].
  split; [reflexivity|]. cbn. repeat split; right; reflexivity.
Defined.

Example is_drowsy_eyes_closed : is_drowsy ["Eyes_Closed"; "alert"]%string = true.
Proof. reflexivity. Qed.

Example is_drowsy_alert : is_drowsy ["alert"; "awake"]%string = false.
Proof. reflexivity. Qed.

(** The labels are joined with a space, so a keyword does not match across
    two labels. *)
Example is_drowsy_across_labels : is_drowsy ["ya"; "wn"]%string = false.
Proof. reflexivity. Qed.

(** ** Binary64 rounding: the relative error is at most [eps] *)

Open Scope Q_scope.

Lemma rint_error (y : Q) : Qabs (inject_Z (rint y) - y) <= 1 # 2.
Proof.
  unfold rint.
  pose proof (Qfloor_le y) as Hlo. pose proof (Qlt_floor y) as Hhi.
  rewrite inject_Z_plus in Hhi. change (inject_Z 1) with 1 in Hhi.
  apply Qabs_Qle_condition.
  destruct (Qcompare (y - inject_Z (Qfloor y)) (1 # 2)) eqn:C.
  - apply Qeq_alt in C. destruct (Z.even (Qfloor y));
      rewrite ?inject_Z_plus; change (inject_Z 1) with 1; lra.
  - apply Qlt_alt in C. lra.
  - apply Qgt_alt in C. rewrite inject_Z_plus. change (inject_Z 1) with 1. lra.
Qed.

Lemma pow2_pos (e : Z) : 0 < 2 ^ e.
Proof. apply Qpower_0_lt. reflexivity. Qed.

Lemma log2_window (a : Q) :
  0 < a ->
  2 ^ 51 <= a / 2 ^ (Z.log2 (Qnum a) - Z.log2 (Zpos (Qden a)) - 52).
Proof.
  intros Ha. destruct a as [p q].
  assert (Hp : (0 < p)%Z) by (unfold Qlt in Ha; simpl in Ha; lia).
  cbn [Qnum Qden].
  set (lp := Z.log2 p). set (lq := Z.log2 (Z.pos q)).
  assert (Hlp : (0 <= lp)%Z) by apply Z.log2_nonneg.
  assert (Hlq : (0 <= lq)%Z) by apply Z.log2_nonneg.
  destruct (Z.log2_spec p Hp) as [Hp1 _]. fold lp in Hp1.
  destruct (Z.log2_spec (Z.pos q) (Pos2Z.is_pos q)) as [_ Hq2]. fold lq in Hq2.
  rewrite Z.pow_succ_r in Hq2 by assumption.
  assert (E : 2 ^ (lp - lq - 52) == inject_Z (2 ^ lp) / (inject_Z (2 ^ lq) * 2 ^ 52)).
  { replace (lp - lq - 52)%Z with (lp - (lq + 52))%Z by lia.
    rewrite Qpower_minus by discriminate.
    rewrite Qpower_plus by discriminate.
    rewrite !Zpower_Qpower by assumption. reflexivity. }
  rewrite E.
  set (A := (2 ^ lp)%Z) in *. set (B := (2 ^ lq)%Z) in *.
  assert (HA : (0 < A)%Z) by (apply Z.pow_pos_nonneg; lia).
  assert (HB : (0 < B)%Z) by (apply Z.pow_pos_nonneg; lia).
  assert (HAq : 0 < inject_Z A) by (change 0 with (inject_Z 0); now rewrite <- Zlt_Qlt).
  assert (HBq : 0 < inject_Z B) by (change 0 with (inject_Z 0); now rewrite <- Zlt_Qlt).
  assert (HPA : inject_Z A <= inject_Z p) by now rewrite <- Zle_Qle.
  assert (HQB : inject_Z (Z.pos q) < 2 * inject_Z B).
  { change 2 with (inject_Z 2). rewrite <- inject_Z_mult. rewrite <- Zlt_Qlt. lia. }
  assert (Hq : 0 < inject_Z (Z.pos q)) by reflexivity.
  rewrite (Qmake_Qdiv p q).
  set (P := inject_Z p) in *. set (D := inject_Z (Z.pos q)) in *.
  set (IA := inject_Z A) in *. set (IB := inject_Z B) in *.
  assert (T : 2 ^ 52 == 2 * 2 ^ 51) by reflexivity.
  rewrite T. pose proof (pow2_pos 51) as HT. set (t := 2 ^ 51) in *.
  assert (Hx : 1 <= P / IA) by (apply Qle_shift_div_l; lra).
  assert (Hy : 1 # 2 <= IB / D) by (apply Qle_shift_div_l; lra).
  assert (F : P / D / (IA / (IB * (2 * t))) == 2 * t * ((P / IA) * (IB / D))).
  { field. repeat split; lra. }
  rewrite F. nra.
Qed.

Lemma binade_lower (a : Q) : 0 < a -> 2 ^ 52 <= a / 2 ^ binade a.
Proof.
  intros Ha. unfold binade.
  set (e0 := (Z.log2 (Qnum a) - Z.log2 (Z.pos (Qden a)) - 52)%Z).
  destruct (Qle_bool (2 ^ 52) (a / 2 ^ e0)) eqn:C.
  - now apply Qle_bool_iff.
  - pose proof (log2_window a Ha) as W. fold e0 in W.
    replace (e0 - 1)%Z with (e0 + -1)%Z by lia.
    rewrite Qpower_plus by discriminate.
    pose proof (pow2_pos e0) as He.
    assert (F : a / (2 ^ e0 * 2 ^ (-1)) == 2 * (a / 2 ^ e0)).
    { change (2 ^ (-1)) with (/ 2). field. lra. }
    rewrite F. change (2 ^ 52) with (2 * 2 ^ 51). lra.
Qed.

Lemma round_pos_error (a : Q) : 0 < a -> Qabs (round_pos a - a) <= eps * a.
Proof.
  intros Ha. unfold round_pos. rewrite Qred_correct.
  pose proof (binade_lower a Ha) as L. pose proof (pow2_pos (binade a)) as He.
  set (e := binade a) in *. set (y := a / 2 ^ e) in *.
  pose proof (rint_error y) as R.
  assert (Ey : a == y * 2 ^ e) by (unfold y; field; lra).
  apply Qabs_Qle_condition in R. apply Qabs_Qle_condition.
  set (m := inject_Z (rint y)) in *. set (u := 2 ^ e) in *.
  assert (K : 2 ^ 52 * (2 * eps) == 1) by reflexivity.
  assert (Hk : 0 < eps) by reflexivity.
  set (t := 2 ^ 52) in *. set (k := eps) in *.
  assert (U : u <= 2 * k * (y * u)).
  { assert (0 <= (y - t) * u) by (apply Qmult_le_0_compat; lra).
    assert (0 <= (y - t) * u * (2 * k)) by (apply Qmult_le_0_compat; lra).
    nra. }
  rewrite Ey.
  split; nra.
Qed.

Lemma b64_error (x : Q) : Qabs (b64 x - x) <= eps * Qabs x.
Proof.
  unfold b64. destruct x as [n d]. destruct n as [|p|p]; cbn [Qnum].
  - apply Qle_bool_iff. reflexivity.
  - assert (H : 0 < Z.pos p # d) by reflexivity.
    rewrite (Qabs_pos (Z.pos p # d)) by (apply Qlt_le_weak; exact H).
    now apply round_pos_error.
  - assert (H : 0 < - (Z.neg p # d)) by reflexivity.
    pose proof (round_pos_error _ H) as R.
    rewrite (Qabs_neg (Z.neg p # d)) by (apply Qlt_le_weak; reflexivity).
    setoid_replace (- round_pos (- (Z.neg p # d)) - (Z.neg p # d))
      with (- (round_pos (- (Z.neg p # d)) - - (Z.neg p # d))) by ring.
    now rewrite Qabs_opp.
Qed.

Lemma eps_pos : 0 < eps.
Proof. reflexivity. Qed.

Lemma eps_small : eps <= 1 # 1000.
Proof. apply Qle_bool_iff. reflexivity. Qed.

(** On a non-negative number rounding moves by a factor within
    [1 - eps, 1 + eps]. *)
Lemma b64_bounds (x : Q) :
  0 <= x -> x * (1 - eps) <= b64 x <= x * (1 + eps).
Proof.
  intros Hx. pose proof (b64_error x) as H.
  rewrite (Qabs_pos x Hx) in H. apply Qabs_Qle_condition in H. lra.
Qed.

Lemma b64_nonneg (x : Q) : 0 <= x -> 0 <= b64 x.
Proof.
  intros Hx. pose proof (b64_bounds x Hx) as [H _].
  pose proof eps_small. nra.
Qed.

Lemma b64_pos (x : Q) : 0 < x -> 0 < b64 x.
Proof.
  intros Hx. pose proof (b64_bounds x (Qlt_le_weak _ _ Hx)) as [H _].
  pose proof eps_small. nra.
Qed.

(** [int(x)] is the floor of a non-negative [x]. *)
Lemma int_of_float_floor (x : Q) : 0 <= x -> int_of_float x = Qfloor x.
Proof.
  destruct x as [n d]. unfold Qle, int_of_float, Qfloor. simpl.
  rewrite Z.mul_1_r. intros Hn. apply Z.quot_div_nonneg; lia.
Qed.

(** The rounding on concrete inputs: the values are those of Python's
    binary64 arithmetic. *)
Example b64_six_tenths : b64 (6 # 10) = 5404319552844595 # 9007199254740992.
Proof. reflexivity. Qed.

Example b64_one_third : b64 (1 # 3) = 6004799503160661 # 18014398509481984.
Proof. reflexivity. Qed.

Example b64_ties_to_even :
  b64 9007199254740993 = 9007199254740992 /\ b64 9007199254740995 = 9007199254740996.
Proof. split; reflexivity. Qed.

Example three_times_six_tenths :
  fmul 3 (b64 (6 # 10)) = 2026619832316723 # 1125899906842624.
Proof. reflexivity. Qed.

Example five_times_six_tenths : fmul 5 (b64 (6 # 10)) = 3.
Proof. reflexivity. Qed.

Example longest_edge_1077 : int_of_float (fmul 1077 (fdiv 640 1077)) = 639%Z.
Proof. reflexivity. Qed.

Example longest_edge_1280 : int_of_float (fmul 1280 (fdiv 640 1280)) = 640%Z.
Proof. reflexivity. Qed.

(** ** [_maybe_resize] *)

(** A product by a rounded quotient: [b64 (x * b64 (l / m))] is within a
    factor [1 - 3 eps, 1 + 3 eps] of [x * l / m]. *)
Lemma scaled_bounds (x l m : Q) :
  0 <= x -> 0 < l -> 0 < m ->
  let p := fmul x (fdiv l m) in
  x * l / m * (1 - 3 * eps) <= p <= x * l / m * (1 + 3 * eps).
Proof.
  intros Hx Hl Hm. cbv zeta. unfold fmul, fdiv.
  assert (Hq : 0 < l / m) by (apply Qlt_shift_div_l; lra).
  pose proof (b64_bounds (l / m) (Qlt_le_weak _ _ Hq)) as [S1 S2].
  pose proof (b64_pos (l / m) Hq) as Sp.
  set (q := l / m) in *. set (s := b64 q) in *.
  assert (Hu : 0 <= x * s) by (apply Qmult_le_0_compat; lra).
  pose proof (b64_bounds (x * s) Hu) as [P1 P2].
  assert (Et : x * l / m == x * q) by (unfold q; field; lra).
  rewrite Et.
  assert (T : 0 <= x * q) by (apply Qmult_le_0_compat; lra).
  assert (U1 : x * q * (1 - eps) <= x * s).
  { setoid_replace (x * q * (1 - eps)) with (x * (q * (1 - eps))) by ring.
    destruct (Qle_lt_or_eq _ _ Hx) as [Hx'|Hx'].
    - now apply Qmult_le_l.
    - rewrite <- Hx'. lra. }
  assert (U2 : x * s <= x * q * (1 + eps)).
  { setoid_replace (x * q * (1 + eps)) with (x * (q * (1 + eps))) by ring.
    destruct (Qle_lt_or_eq _ _ Hx) as [Hx'|Hx'].
    - now apply Qmult_le_l.
    - rewrite <- Hx'. lra. }
  set (t := x * q) in *. set (u := x * s) in *.
  unfold eps in *. split; lra.
Qed.

Lemma inject_Z_pos (z : Z) : (0 < z)%Z -> 0 < inject_Z z.
Proof. intros H. change 0 with (inject_Z 0). now rewrite <- Zlt_Qlt. Qed.

(** One edge [x] of an image whose longest edge is [m], resized for the limit
    [l]: the new edge [int(x * scale)] lies within one pixel, and a rounding
    error below 1/1000, of [x * l / m], and within [0, l]. *)
Lemma resized_edge (x m l : Z) :
  (0 < x <= m)%Z -> (0 < l <= 2 ^ 40)%Z ->
  let n := int_of_float (fmul (inject_Z x) (fdiv (inject_Z l) (inject_Z m))) in
  let exact := inject_Z x * inject_Z l / inject_Z m in
  exact - 1 - (1 # 1000) < inject_Z n /\ inject_Z n <= exact + (1 # 1000) /\
  (0 <= n <= l)%Z.
Proof.
  intros [Hx Hxm] [Hl Hl40]. cbv zeta.
  assert (HX : 0 < inject_Z x) by now apply inject_Z_pos.
  assert (HM : 0 < inject_Z m) by (apply inject_Z_pos; lia).
  assert (HL : 0 < inject_Z l) by now apply inject_Z_pos.
  assert (HXM : inject_Z x <= inject_Z m) by now rewrite <- Zle_Qle.
  assert (HL40 : inject_Z l <= 1099511627776).
  { change 1099511627776 with (inject_Z (2 ^ 40)). now rewrite <- Zle_Qle. }
  pose proof (scaled_bounds (inject_Z x) (inject_Z l) (inject_Z m)
                (Qlt_le_weak _ _ HX) HL HM) as B.
  cbv zeta in B.
  set (p := fmul (inject_Z x) (fdiv (inject_Z l) (inject_Z m))) in *.
  set (exact := inject_Z x * inject_Z l / inject_Z m) in *.
  assert (He0 : 0 <= exact).
  { unfold exact. apply Qle_shift_div_l; [exact HM|].
    rewrite Qmult_0_l. apply Qmult_le_0_compat; lra. }
  assert (HeL : exact <= inject_Z l).
  { unfold exact. apply Qle_shift_div_r; [exact HM|].
    rewrite (Qmult_comm (inject_Z l)). apply Qmult_le_compat_r; lra. }
  destruct B as [B1 B2]. unfold eps in B1, B2.
  assert (Hp : 0 <= p) by lra.
  rewrite (int_of_float_floor p Hp).
  pose proof (Qfloor_le p) as F1. pose proof (Qlt_floor p) as F2.
  rewrite inject_Z_plus in F2. change (inject_Z 1) with 1 in F2.
  split; [lra | split; [lra|]]. split.
  - change 0%Z with (Qfloor 0). apply Qfloor_resp_le. exact Hp.
  - apply Z.lt_succ_r. rewrite Zlt_Qlt. unfold Z.succ.
    rewrite inject_Z_plus. change (inject_Z 1) with 1. lra.
Qed.

(** The longest edge comes out as the limit or one pixel less. *)
Lemma resized_longest_edge (m l : Z) :
  (0 < m)%Z -> (0 < l <= 2 ^ 40)%Z ->
  (l - 1 <= int_of_float (fmul (inject_Z m) (fdiv (inject_Z l) (inject_Z m))))%Z.
Proof.
  intros Hm Hl.
  destruct (resized_edge m m l (conj Hm (Z.le_refl m)) Hl) as [H1 _].
  cbv zeta in H1.
  set (n := int_of_float (fmul (inject_Z m) (fdiv (inject_Z l) (inject_Z m)))) in *.
  assert (HM : 0 < inject_Z m) by now apply inject_Z_pos.
  assert (E : inject_Z m * inject_Z l / inject_Z m == inject_Z l) by (field; lra).
  rewrite E in H1.
  assert (H : inject_Z (l - 2) < inject_Z n).
  { unfold Z.sub. rewrite inject_Z_plus. change (inject_Z (- (2))) with (- (2)). lra. }
  rewrite <- Zlt_Qlt in H. lia.
Qed.

(** The scale of a resize lies strictly between 0 and 1, and within the
    relative error [eps] of [l / m]. *)
Lemma resize_scale_bounds (m l : Z) :
  (0 < l <= 2 ^ 40)%Z -> (l < m)%Z ->
  let scale := fdiv (inject_Z l) (inject_Z m) in
  0 < scale /\ scale < 1 /\
  Qabs (scale - inject_Z l / inject_Z m) <= eps * (inject_Z l / inject_Z m).
Proof.
  intros [Hl Hl40] Hlm. cbv zeta. unfold fdiv.
  assert (HL : 0 < inject_Z l) by now apply inject_Z_pos.
  assert (HM : 0 < inject_Z m) by (apply inject_Z_pos; lia).
  assert (HL40 : inject_Z l <= 1099511627776).
  { change 1099511627776 with (inject_Z (2 ^ 40)). now rewrite <- Zle_Qle. }
  assert (HLM : inject_Z l + 1 <= inject_Z m).
  { change 1 with (inject_Z 1). rewrite <- inject_Z_plus, <- Zle_Qle. lia. }
  assert (Hq : 0 < inject_Z l / inject_Z m) by (apply Qlt_shift_div_l; lra).
  pose proof (b64_error (inject_Z l / inject_Z m)) as Err.
  rewrite (Qabs_pos (inject_Z l / inject_Z m)) in Err by lra.
  split; [now apply b64_pos | split; [|exact Err]].
  apply Qabs_Qle_condition in Err.
  assert (Hq1 : inject_Z l / inject_Z m * (inject_Z l + 1) <= inject_Z l).
  { setoid_replace (inject_Z l / inject_Z m * (inject_Z l + 1))
      with (inject_Z l * ((inject_Z l + 1) / inject_Z m)) by (field; lra).
    rewrite <- (Qmult_1_r (inject_Z l)) at 3.
    apply Qmult_le_l; [exact HL|].
    apply Qle_shift_div_r; lra. }
  set (q := inject_Z l / inject_Z m) in *. set (L := inject_Z l) in *.
  unfold eps in Err.
  assert (Hq2 : q * L <= L - q) by lra.
  assert (Hq3 : q <= 1) by nra.
  nra.
Qed.

(** The two ways [_maybe_resize] returns. *)
Lemma maybe_resize_cases {E : External} (frame : Frame Pixels) (max_side : Z)
    (fr : Frame Pixels) (sx sy : Q) :
  _maybe_resize frame max_side = Ret (fr, sx, sy) ->
  let m := Z.max (height frame) (width frame) in
  ((m <= max_side)%Z /\ fr = frame /\ sx = 1 /\ sy = 1)
  \/ ((max_side < m)%Z
      /\ sx = fdiv (inject_Z max_side) (inject_Z m) /\ sy = sx
      /\ width fr = int_of_float (fmul (inject_Z (width frame)) sx)
      /\ height fr = int_of_float (fmul (inject_Z (height frame)) sx)).
Proof.
  cbv zeta. unfold _maybe_resize, bind.
  destruct (Z.gtb_spec (Z.max (height frame) (width frame)) max_side) as [Hm | Hm].
  - destruct (cv2_resize frame _) as [r|] eqn:R; [|discriminate].
    intros H. injection H as <- <- <-.
    destruct (cv2_resize_shape frame _ _ r R) as [Ew Eh].
    right. repeat split; (lia || assumption).
  - intros H. injection H as <- <- <-. left. repeat split. exact Hm.
Qed.

(** Whether a requested edge is empty.  For an edge [x] of an image whose
    longest edge is [m]: when [x * l] exceeds [m] the new edge is at least
    one pixel, and when [x * l] is below [m] it is 0. *)
Lemma resized_edge_empty_or_not (x m l : Z) :
  (0 < x <= m)%Z -> (0 < l <= 2 ^ 40)%Z -> (m <= 2 ^ 50)%Z ->
  let n := int_of_float (fmul (inject_Z x) (fdiv (inject_Z l) (inject_Z m))) in
  ((m < x * l)%Z -> (1 <= n)%Z) /\ ((x * l < m)%Z -> n = 0%Z).
Proof.
  intros [Hx Hxm] [Hl Hl40] Hm50. cbv zeta.
  assert (HX : 0 < inject_Z x) by now apply inject_Z_pos.
  assert (HM : 0 < inject_Z m) by (apply inject_Z_pos; lia).
  assert (HL : 0 < inject_Z l) by now apply inject_Z_pos.
  assert (HXM : inject_Z x <= inject_Z m) by now rewrite <- Zle_Qle.
  assert (HM50 : inject_Z m <= 1125899906842624).
  { change 1125899906842624 with (inject_Z (2 ^ 50)). now rewrite <- Zle_Qle. }
  pose proof (scaled_bounds (inject_Z x) (inject_Z l) (inject_Z m)
                (Qlt_le_weak _ _ HX) HL HM) as B.
  cbv zeta in B.
  set (p := fmul (inject_Z x) (fdiv (inject_Z l) (inject_Z m))) in *.
  set (exact := inject_Z x * inject_Z l / inject_Z m) in *.
  assert (He0 : 0 <= exact).
  { unfold exact. apply Qle_shift_div_l; [exact HM|].
    rewrite Qmult_0_l. apply Qmult_le_0_compat; lra. }
  assert (He : exact * inject_Z m == inject_Z x * inject_Z l)
    by (unfold exact; field; lra).
  destruct B as [B1 B2]. unfold eps in B1, B2.
  assert (Hp : 0 <= p) by lra.
  rewrite (int_of_float_floor p Hp).
  pose proof (Qfloor_le p) as F1. pose proof (Qlt_floor p) as F2.
  rewrite inject_Z_plus in F2. change (inject_Z 1) with 1 in F2.
  split; intros Hc.
  - assert (HXL : inject_Z m + 1 <= inject_Z x * inject_Z l).
    { change 1 with (inject_Z 1).
      rewrite <- inject_Z_plus, <- inject_Z_mult, <- Zle_Qle. lia. }
    assert (Hd : 1 <= (exact - 1) * inject_Z m) by lra.
    assert (Hpos : 0 <= exact - 1) by nra.
    assert (Hd' : (exact - 1) * inject_Z m <= (exact - 1) * 1125899906842624)
      by (rewrite !(Qmult_comm (exact - 1)); apply Qmult_le_compat_r; assumption).
    assert (H1 : 1 <= p).
    { destruct (Qlt_le_dec 2 exact); lra. }
    change 1%Z with (Qfloor 1). now apply Qfloor_resp_le.
  - assert (HXL : inject_Z x * inject_Z l <= inject_Z m - 1).
    { change 1 with (inject_Z 1). unfold Qminus.
      rewrite <- inject_Z_opp, <- inject_Z_plus, <- inject_Z_mult, <- Zle_Qle. lia. }
    assert (Hd : 1 <= (1 - exact) * inject_Z m) by lra.
    assert (Hpos : 0 <= 1 - exact) by nra.
    assert (Hd' : (1 - exact) * inject_Z m <= (1 - exact) * 1125899906842624)
      by (rewrite !(Qmult_comm (1 - exact)); apply Qmult_le_compat_r; assumption).
    assert (H1 : p < 1) by lra.
    assert (H0 : (0 <= Qfloor p)%Z)
      by (change 0%Z with (Qfloor 0); now apply Qfloor_resp_le).
    assert (H2 : (Qfloor p < 1)%Z).
    { rewrite Zlt_Qlt. change (inject_Z 1) with 1. lra. }
    lia.
Qed.

(** C8, as the code has it.  A frame whose longest edge is at most the limit
    is returned as it is, with scale 1.0.  A larger frame is handed to
    [cv2.resize] with the size [(int(w * scale), int(h * scale))] for
    [scale = limit / max(h, w)], a number strictly between 0 and 1; the
    longest edge of that size is the limit or one pixel less, and each edge
    is within one pixel (and a rounding error below 1/1000) of the edge
    scaled by [limit / max(h, w)].  When the shorter edge times the limit
    exceeds the longest edge, both edges of that size are at least one
    pixel, and with a resampler that returns an image for every such size
    [_maybe_resize] returns: the resized image, of that size, with the scale
    twice.  When the shorter edge times the limit is below the longest edge,
    the size asked for has an edge of 0 pixels.  [_maybe_resize] raises what
    [cv2.resize] raises. *)
Theorem maybe_resize_contract {E : External} (frame : Frame Pixels) (max_side : Z) :
  (0 < height frame)%Z -> (0 < width frame)%Z -> (0 < max_side <= 2 ^ 40)%Z ->
  let h := height frame in
  let w := width frame in
  let m := Z.max h w in
  ((m <= max_side)%Z -> _maybe_resize frame max_side = Ret (frame, 1, 1))
  /\
  ((max_side < m)%Z ->
   let scale := fdiv (inject_Z max_side) (inject_Z m) in
   let new_w := int_of_float (fmul (inject_Z w) scale) in
   let new_h := int_of_float (fmul (inject_Z h) scale) in
   (max_side - 1 <= Z.max new_w new_h <= max_side)%Z
   /\ Qabs (inject_Z new_w - inject_Z w * inject_Z max_side / inject_Z m) < 1 + (1 # 1000)
   /\ Qabs (inject_Z new_h - inject_Z h * inject_Z max_side / inject_Z m) < 1 + (1 # 1000)
   /\ 0 < scale /\ scale < 1
   /\ Qabs (scale - inject_Z max_side / inject_Z m)
      <= eps * (inject_Z max_side / inject_Z m)
   /\ ((m <= 2 ^ 50)%Z ->
       ((m < Z.min h w * max_side)%Z -> (1 <= new_w)%Z /\ (1 <= new_h)%Z)
       /\ ((Z.min h w * max_side < m)%Z -> Z.min new_w new_h = 0%Z))
   /\ ((forall nw nh : Z, (0 < nw)%Z -> (0 < nh)%Z ->
          exists r, cv2_resize frame (nw, nh) = Ret r) ->
       (m <= 2 ^ 50)%Z -> (m < Z.min h w * max_side)%Z ->
       exists resized,
         _maybe_resize frame max_side = Ret (resized, scale, scale)
         /\ width resized = new_w /\ height resized = new_h)
   /\ (forall resized,
         cv2_resize frame (new_w, new_h) = Ret resized ->
         _maybe_resize frame max_side = Ret (resized, scale, scale)
         /\ width resized = new_w /\ height resized = new_h)
   /\ (forall e,
         cv2_resize frame (new_w, new_h) = Raise e ->
         _maybe_resize frame max_side = Raise e)).
Proof.
  intros Hh Hw Hl. cbv zeta. split.
  - intros Hm. unfold _maybe_resize.
    destruct (Z.gtb_spec (Z.max (height frame) (width frame)) max_side); [lia|reflexivity].
  - intros Hm.
    set (m := Z.max (height frame) (width frame)) in *.
    assert (Hhm : (0 < height frame <= m)%Z) by (unfold m; lia).
    assert (Hwm : (0 < width frame <= m)%Z) by (unfold m; lia).
    pose proof (resized_edge (width frame) m max_side Hwm Hl) as (W1 & W2 & W3).
    pose proof (resized_edge (height frame) m max_side Hhm Hl) as (H1 & H2 & H3).
    assert (Hm0 : (0 < m)%Z) by lia.
    pose proof (resized_longest_edge m max_side Hm0 Hl) as Lg.
    pose proof (resize_scale_bounds m max_side Hl Hm) as (S1 & S2 & S3).
    pose proof (resized_edge_empty_or_not (width frame) m max_side Hwm Hl) as PW.
    pose proof (resized_edge_empty_or_not (height frame) m max_side Hhm Hl) as PH.
    cbv zeta in *.
    set (scale := fdiv (inject_Z max_side) (inject_Z m)) in *.
    set (new_w := int_of_float (fmul (inject_Z (width frame)) scale)) in *.
    set (new_h := int_of_float (fmul (inject_Z (height frame)) scale)) in *.
    assert (Eq : _maybe_resize frame max_side =
                 (resized <- cv2_resize frame (new_w, new_h) ;; Ret (resized, scale, scale))).
    { unfold _maybe_resize. fold m.
      destruct (Z.gtb_spec m max_side); [reflexivity|lia]. }
    assert (Pos : (m <= 2 ^ 50)%Z -> (m < Z.min (height frame) (width frame) * max_side)%Z ->
                  (1 <= new_w)%Z /\ (1 <= new_h)%Z).
    { intros Hm50 Hc. destruct (PW Hm50) as [PW1 _]. destruct (PH Hm50) as [PH1 _].
      split; [apply PW1 | apply PH1]; nia. }
    assert (OnRet : forall resized,
               cv2_resize frame (new_w, new_h) = Ret resized ->
               _maybe_resize frame max_side = Ret (resized, scale, scale)
               /\ width resized = new_w /\ height resized = new_h).
    { intros resized R. rewrite Eq, R. split; [reflexivity|].
      exact (cv2_resize_shape frame new_w new_h resized R). }
    split.
    { destruct (Z.max_spec (height frame) (width frame)) as [[_ Em]|[_ Em]];
        fold m in Em; rewrite Em in Lg; fold new_w new_h in Lg; lia. }
    split; [apply Qabs_Qlt_condition; lra|].
    split; [apply Qabs_Qlt_condition; lra|].
    split; [exact S1|]. split; [exact S2|]. split; [exact S3|].
    split.
    { intros Hm50. split; [exact (Pos Hm50)|].
      intros Hc. destruct (PW Hm50) as [_ PW0]. destruct (PH Hm50) as [_ PH0].
      destruct (Z.min_spec (height frame) (width frame)) as [[_ Em]|[_ Em]];
        rewrite Em in Hc; [rewrite (PH0 Hc) | rewrite (PW0 Hc)]; lia. }
    split.
    { intros Hres Hm50 Hc. destruct (Pos Hm50 Hc) as [Pw Ph].
      destruct (Hres new_w new_h) as [r R]; [lia | lia |].
      exists r. exact (OnRet r R). }
    split; [exact OnRet|].
    intros e R. rewrite Eq, R. reflexivity.
Qed.

(** A 1077 x 300 frame (height x width) in the sample environment: the
    resize asks for 639 x 178, and [_maybe_resize] returns. *)
Lemma maybe_resize_contract_witness :
  exists resized,
    @_maybe_resize Sample.env (mkFrame 1077 300 [x01]) 640
    = Ret (resized, fdiv 640 1077, fdiv 640 1077)
    /\ width resized = 178%Z /\ height resized = 639%Z.
Proof.
  destruct (@maybe_resize_contract Sample.env (mkFrame 1077 300 [x01]) 640)
    as [_ H]; [reflexivity | reflexivity | split; [reflexivity | discriminate] |].
  destruct (H eq_refl) as (_ & _ & _ & _ & _ & _ & _ & R & _).
  apply R.
  - intros nw nh Hnw Hnh. exists (mkFrame nh nw [x01]).
    cbn. apply Z.ltb_lt in Hnw. apply Z.ltb_lt in Hnh. now rewrite Hnw, Hnh.
  - discriminate.
  - reflexivity.
Defined.

(** C8 as stated fails on a frame 2000 pixels high and 1 pixel wide: the
    width asked for is [int(1 * 0.32) = 0], the resampler raises on the
    empty size, and [_maybe_resize] raises instead of returning a resized
    frame. *)
Lemma degenerate_resize_raises_counterexample :
  int_of_float (fmul 1 (fdiv 640 2000)) = 0%Z
  /\ int_of_float (fmul 2000 (fdiv 640 2000)) = 640%Z
  /\ @_maybe_resize Sample.env (mkFrame 2000 1 [x01]) 640
     = Raise (Exception "cv2.error: !dsize.empty() in function resize").
Proof. repeat split; vm_compute; reflexivity. Qed.

(** ** Box rescaling *)

Lemma inverse_scale_bounds (s : Q) :
  0 < s -> 1 - eps <= s * fdiv 1 s <= 1 + eps.
Proof.
  intros Hs. unfold fdiv.
  assert (Hr : 0 < 1 / s) by (apply Qlt_shift_div_l; lra).
  pose proof (b64_bounds (1 / s) (Qlt_le_weak _ _ Hr)) as [B1 B2].
  assert (E : s * (1 / s) == 1) by (field; lra).
  apply (Qmult_le_l (1 / s * (1 - eps)) (b64 (1 / s)) s Hs) in B1.
  apply (Qmult_le_l (b64 (1 / s)) (1 / s * (1 + eps)) s Hs) in B2.
  setoid_replace (s * (1 / s * (1 - eps))) with (s * (1 / s) * (1 - eps)) in B1 by ring.
  setoid_replace (s * (1 / s * (1 + eps))) with (s * (1 / s) * (1 + eps)) in B2 by ring.
  rewrite E in B1, B2. lra.
Qed.

(** A coordinate [x] of the original image, taken to the resized image and
    rescaled.  [W] is the original edge, [n] the new edge, within one pixel
    below the rounded [W * s]: the result is [x] up to the relative error
    [1 / (n + 1) + 6 eps]. *)
Lemma rescaled_resized_coord (x W n s : Q) :
  0 < W -> 0 < s -> 0 <= n ->
  n <= W * s * (1 + eps) -> W * s * (1 - eps) < n + 1 ->
  close_to (1 / (n + 1) + 6 * eps) (fmul (x * n / W) (fdiv 1 s)) x.
Proof.
  intros HW Hs Hn Hup Hlo. unfold close_to, fmul.
  pose proof (inverse_scale_bounds s Hs) as [I1 I2].
  set (inv := fdiv 1 s) in *.
  set (u := 1 / (n + 1)).
  assert (Hu : (n + 1) * u == 1) by (unfold u; field; lra).
  assert (Hu0 : 0 < u) by (unfold u; apply Qlt_shift_div_l; lra).
  assert (Hu1 : u <= 1) by nra.
  set (rho := n / (W * s)).
  assert (HWs : 0 < W * s) by (apply Qmult_lt_0_compat; assumption).
  assert (Hrho : rho * (W * s) == n) by (unfold rho; field; lra).
  assert (R0 : 0 <= rho) by (unfold rho; apply Qle_shift_div_l; lra).
  assert (R2 : rho <= 1 + eps).
  { unfold rho. apply Qle_shift_div_r; [exact HWs|]. lra. }
  assert (R1 : 1 - u - eps <= rho).
  { (* rho * (n + 1) >= rho * W s (1 - eps) = n (1 - eps) *)
    assert (A1 : rho * (W * s * (1 - eps)) <= rho * (n + 1)).
    { rewrite !(Qmult_comm rho). apply Qmult_le_compat_r; lra. }
    assert (A2 : rho * (W * s * (1 - eps)) == n * (1 - eps)).
    { rewrite <- Hrho. ring. }
    rewrite A2 in A1.
    (* multiply by u *)
    assert (A3 : n * (1 - eps) * u <= rho * (n + 1) * u).
    { apply Qmult_le_compat_r; lra. }
    assert (A4 : rho * (n + 1) * u == rho) by (rewrite <- Qmult_assoc, Hu; ring).
    rewrite A4 in A3.
    assert (A5 : n * u == 1 - u) by lra.
    setoid_replace (n * (1 - eps) * u) with ((1 - u) * (1 - eps)) in A3
      by (rewrite <- A5; ring).
    unfold eps in *. nra. }
  set (k := rho * (s * inv)).
  assert (K1 : 1 - u - 2 * eps <= k).
  { unfold k. assert (B : rho * (1 - eps) <= rho * (s * inv)).
    { rewrite !(Qmult_comm rho). apply Qmult_le_compat_r; lra. }
    unfold eps in *. nra. }
  assert (K2 : k <= 1 + 3 * eps).
  { unfold k. assert (B : rho * (s * inv) <= rho * (1 + eps)).
    { rewrite !(Qmult_comm rho). apply Qmult_le_compat_r; lra. }
    unfold eps in *. nra. }
  set (y := x * n / W * inv).
  assert (Ey : y == x * k).
  { unfold y, k, rho. field. lra. }
  pose proof (b64_error y) as Err.
  assert (D : Qabs (y - x) <= (u + 3 * eps) * Qabs x).
  { setoid_replace (y - x) with (x * (k - 1)) by (rewrite Ey; ring).
    rewrite Qabs_Qmult, (Qmult_comm (Qabs x)).
    apply Qmult_le_compat_r; [|apply Qabs_nonneg].
    apply Qabs_Qle_condition. unfold eps in *. lra. }
  pose proof (Qabs_triangle (b64 y - y) (y - x)) as T1.
  setoid_replace (b64 y - y + (y - x)) with (b64 y - x) in T1 by ring.
  pose proof (Qabs_triangle (y - x) x) as T2.
  setoid_replace (y - x + x) with y in T2 by ring.
  pose proof (Qabs_nonneg x) as Hx.
  assert (Hux : u * Qabs x <= Qabs x).
  { rewrite <- (Qmult_1_l (Qabs x)) at 2. apply Qmult_le_compat_r; assumption. }
  set (A := Qabs x) in *. set (B := Qabs y) in *.
  set (C := Qabs (b64 y - y)) in *. set (D' := Qabs (y - x)) in *.
  set (P := u * A) in *.
  assert (D2 : D' <= P + 3 * eps * A).
  { unfold P. setoid_replace (u * A + 3 * eps * A) with ((u + 3 * eps) * A) by ring.
    exact D. }
  setoid_replace ((u + 6 * eps) * A) with (P + 6 * eps * A) by (unfold P; ring).
  unfold eps in *. lra.
Qed.

(** C7, as the code has it.  The resize takes a coordinate [x] of the
    original frame to [x * new_w / w] (or [y * new_h / h]), where the new
    edges are truncated to whole pixels; the rescaling multiplies by
    [1 / scale] for [scale = limit / max(h, w)].  So the rescaled boxes
    agree with the original ones up to a relative error of one part in
    [new_w + 1] on the horizontal coordinates and one part in [new_h + 1]
    on the vertical ones (plus [6 eps] of rounding), not up to rounding
    alone.  For the scale 1.0 the boxes are returned as they are. *)
Theorem box_rescale_nearly_inverts_resize {E : External}
    (frame fr : Frame Pixels) (max_side : Z) (sx sy : Q) (bs : list YOLO.Box) :
  (0 < height frame)%Z -> (0 < width frame)%Z -> (0 < max_side <= 2 ^ 40)%Z ->
  _maybe_resize frame max_side = Ret (fr, sx, sy) ->
  Forall2 (box_close (1 / (inject_Z (width fr) + 1) + 6 * eps)
                     (1 / (inject_Z (height fr) + 1) + 6 * eps))
    (rescale_boxes sx sy
       (map (resize_box (width frame) (height frame) (width fr) (height fr)) bs))
    bs
  /\ rescale_boxes 1 1 bs = bs
  /\ ((Z.max (height frame) (width frame) <= max_side)%Z ->
      fr = frame /\ rescale_boxes sx sy bs = bs).
Proof.
  intros Hh Hw Hl Hres.
  assert (HW : 0 < inject_Z (width frame)) by now apply inject_Z_pos.
  assert (HH : 0 < inject_Z (height frame)) by now apply inject_Z_pos.
  split; [|split; [reflexivity|]].
  - destruct (maybe_resize_cases frame max_side fr sx sy Hres)
      as [(Hm & -> & -> & ->) | (Hm & Es & -> & Ew & Eh)].
    + change (rescale_boxes 1 1 ?l) with l.
      induction bs as [|[[[x1 y1] x2] y2] bs IH]; cbn [map]; constructor; [|exact IH].
      cbn [resize_box box_close].
      assert (Same : forall (t x W : Q), 0 <= t -> 0 < W -> close_to t (x * W / W) x).
      { intros t x W Ht HW0. unfold close_to.
        setoid_replace (x * W / W - x) with 0 by (field; lra).
        change (Qabs 0) with 0. apply Qmult_le_0_compat; [exact Ht | apply Qabs_nonneg]. }
      assert (Tol : forall n : Z, (0 < n)%Z -> 0 <= 1 / (inject_Z n + 1) + 6 * eps).
      { intros n Hn. pose proof (inject_Z_pos n Hn) as Hq.
        assert (0 < 1 / (inject_Z n + 1)) by (apply Qlt_shift_div_l; lra).
        unfold eps. lra. }
      repeat split; apply Same; auto.
    + set (m := Z.max (height frame) (width frame)) in *.
      destruct (resize_scale_bounds m max_side Hl Hm) as (S0 & S1 & _).
      cbv zeta in S0, S1. rewrite <- Es in S0, S1.
      assert (Edge : forall x : Z, (0 < x)%Z ->
                 let n := inject_Z (int_of_float (fmul (inject_Z x) sx)) in
                 0 <= n /\ n <= inject_Z x * sx * (1 + eps)
                 /\ inject_Z x * sx * (1 - eps) < n + 1).
      { intros x Hx. cbv zeta. pose proof (inject_Z_pos x Hx) as HX.
        assert (Hxs : 0 <= inject_Z x * sx) by (apply Qmult_le_0_compat; lra).
        pose proof (b64_bounds _ Hxs) as [P1 P2].
        pose proof (b64_nonneg _ Hxs) as P0.
        unfold fmul. rewrite (int_of_float_floor _ P0).
        pose proof (Qfloor_le (b64 (inject_Z x * sx))) as F1.
        pose proof (Qlt_floor (b64 (inject_Z x * sx))) as F2.
        rewrite inject_Z_plus in F2. change (inject_Z 1) with 1 in F2.
        split; [|split; lra].
        change 0 with (inject_Z 0). rewrite <- Zle_Qle.
        change 0%Z with (Qfloor 0). now apply Qfloor_resp_le. }
      destruct (Edge (width frame) Hw) as (Wn & Wu & Wl).
      destruct (Edge (height frame) Hh) as (Hn & Hu & Hlo).
      cbv zeta in Wn, Wu, Wl, Hn, Hu, Hlo. rewrite <- Ew in Wn, Wu, Wl.
      rewrite <- Eh in Hn, Hu, Hlo.
      unfold rescale_boxes.
      assert (Ne : Qeq_bool sx 1 = false).
      { destruct (Qeq_bool sx 1) eqn:Q1; [|reflexivity].
        apply Qeq_bool_eq in Q1. lra. }
      rewrite Ne. cbn [negb orb].
      induction bs as [|[[[x1 y1] x2] y2] bs IH]; cbn [map]; constructor; [|exact IH].
      cbn [resize_box rescale_box box_close].
      repeat split; apply rescaled_resized_coord; assumption.
  - intros Hm. destruct (maybe_resize_cases frame max_side fr sx sy Hres)
      as [(_ & -> & -> & ->) | (Hm' & _)]; [|lia].
    split; reflexivity.
Qed.

(** A 1077 x 300 frame in the sample environment, resized to 639 x 178: the
    box that fills the frame comes back within one part in 179 of its width
    and one part in 640 of its height. *)
Lemma box_rescale_nearly_inverts_resize_witness :
  Forall2 (box_close (1 / (178 + 1) + 6 * eps) (1 / (639 + 1) + 6 * eps))
    (rescale_boxes (fdiv 640 1077) (fdiv 640 1077)
       (map (resize_box 300 1077 178 639) [(0, 0, 300, 1077)]))
    [(0, 0, 300, 1077)].
Proof.
  refine (proj1 (@box_rescale_nearly_inverts_resize Sample.env
                   (mkFrame 1077 300 [x01]) (mkFrame 639 178 [x01]) 640
                   (fdiv 640 1077) (fdiv 640 1077) [(0, 0, 300, 1077)]
                   eq_refl eq_refl _ _)).
  - split; [reflexivity | discriminate].
  - vm_compute. reflexivity.
Defined.

(** C7 as stated fails on that frame.  The resize to 639 x 178 takes the box
    that fills the 1077 x 300 frame to the box that fills the resized image;
    rescaled, it comes back as (0, 0, 299.54, 1075.32): the far corner is
    off by more than one part in a thousand, in height by more than a
    pixel. *)
Lemma rescaled_box_misses_original_counterexample :
  @_maybe_resize Sample.env (mkFrame 1077 300 [x01]) 640
  = Ret (mkFrame 639 178 [x01], fdiv 640 1077, fdiv 640 1077)
  /\ rescale_boxes (fdiv 640 1077) (fdiv 640 1077)
       [resize_box 300 1077 178 639 (0, 0, 300, 1077)]
     = [(0, 0, 5269574402860647 # 17592186044416, 4729295004814541 # 4398046511104)]
  /\ ~ close_to (1 # 1000) (5269574402860647 # 17592186044416) 300
  /\ ~ close_to (1 # 1000) (4729295004814541 # 4398046511104) 1077
  /\ (4729295004814541 # 4398046511104) < 1077 - 1.
Proof.
  split; [vm_compute; reflexivity|]. split; [vm_compute; reflexivity|].
  split; [|split].
  - unfold close_to. intros H. apply Qle_bool_iff in H. vm_compute in H. discriminate.
  - unfold close_to. intros H. apply Qle_bool_iff in H. vm_compute in H. discriminate.
  - apply Qnot_le_lt. intros H. apply Qle_bool_iff in H. vm_compute in H. discriminate.
Qed.

(** ** Boxes and the original frame *)

Lemma rescaled_coord_within (c W s : Q) :
  0 < s -> 0 < W -> 0 <= c -> c <= fmul W s ->
  0 <= fmul c (fdiv 1 s) <= W * (1 + 4 * eps).
Proof.
  intros Hs HW Hc Hcp. unfold fmul in *.
  assert (Hws : 0 <= W * s) by (apply Qmult_le_0_compat; lra).
  pose proof (b64_bounds (W * s) Hws) as [_ P2].
  pose proof (inverse_scale_bounds s Hs) as [_ I2].
  assert (Hinv : 0 < fdiv 1 s).
  { unfold fdiv. apply b64_pos. apply Qlt_shift_div_l; lra. }
  set (inv := fdiv 1 s) in *.
  assert (Hy : 0 <= c * inv) by (apply Qmult_le_0_compat; lra).
  pose proof (b64_bounds (c * inv) Hy) as [_ O2].
  pose proof (b64_nonneg (c * inv) Hy) as O1.
  assert (Y1 : c * inv <= W * s * (1 + eps) * inv).
  { apply Qmult_le_compat_r; lra. }
  assert (Y2 : W * s * (1 + eps) * inv <= W * (1 + eps) * (1 + eps)).
  { setoid_replace (W * s * (1 + eps) * inv) with (W * (1 + eps) * (s * inv)) by ring.
    apply Qmult_le_l; [|exact I2].
    apply Qmult_lt_0_compat; [exact HW | reflexivity]. }
  split; [exact O1|].
  set (y := c * inv) in *. set (z := W * s * (1 + eps) * inv) in *.
  unfold eps in *. lra.
Qed.

Lemma box_within_weaken (W H W' H' : Q) (b : YOLO.Box) :
  W <= W' -> H <= H' -> box_within W H b -> box_within W' H' b.
Proof.
  destruct b as [[[x1 y1] x2] y2]. unfold box_within. intros HW HH.
  intros [[[? ?] [? ?]] [[? ?] [? ?]]]. repeat split; lra.
Qed.

(** The boxes [_detect_labels_and_boxes] reports: none, or the rescaled boxes
    of the model. *)
Lemma detect_boxes {E : External} (cfg : Config)
    (frame : Frame Pixels) (now : Q) (a : AlertState) (det : Det) (a' : AlertState) :
  _detect_labels_and_boxes cfg frame now a = Ret (det, a') ->
  exists fr sx sy r,
    _maybe_resize frame 640 = Ret (fr, sx, sy) /\ model fr = Ret r /\
    (boxes det = [] \/
     exists bx, YOLO.boxes r = Some bx /\
                boxes det = rescale_boxes sx sy (YOLO.xyxy bx)).
Proof.
  unfold _detect_labels_and_boxes, bind.
  destruct (_maybe_resize frame 640) as [[[fr sx] sy]|]; [|discriminate].
  destruct (model fr) as [r|] eqn:M; [|discriminate].
  intros H. exists fr, sx, sy, r. split; [reflexivity|]. split; [exact M|].
  destruct (YOLO.boxes r) as [bx|].
  - destruct (YOLO.cls bx) as [cls|].
    + destruct (label_list (YOLO.names r) cls) as [ls|]; [|discriminate].
      injection H as <- _. right. exists bx. split; reflexivity.
    + injection H as <- _. left. reflexivity.
  - injection H as <- _. left. reflexivity.
Qed.

(** C6, as the code has it: the pipeline does not clip.  When the boxes the
    model reports lie within the image it was given, the boxes the pipeline
    reports lie within the original frame, up to the rounding of the
    rescaling (a factor [1 + 4 eps] on the width and the height). *)
Theorem rescaled_boxes_within_frame {E : External} (cfg : Config)
    (frame : Frame Pixels) (now : Q) (a : AlertState) (det : Det) (a' : AlertState) :
  (0 < height frame)%Z -> (0 < width frame)%Z ->
  (forall fr sx sy r bx,
      _maybe_resize frame 640 = Ret (fr, sx, sy) -> model fr = Ret r ->
      YOLO.boxes r = Some bx ->
      Forall (box_within (inject_Z (width fr)) (inject_Z (height fr))) (YOLO.xyxy bx)) ->
  _detect_labels_and_boxes cfg frame now a = Ret (det, a') ->
  Forall (box_within (inject_Z (width frame) * (1 + 4 * eps))
                     (inject_Z (height frame) * (1 + 4 * eps)))
         (boxes det).
Proof.
  intros Hh Hw Hraw Hdet.
  destruct (detect_boxes cfg frame now a det a' Hdet)
    as (fr & sx & sy & r & Hres & Hmod & [Hnil | (bx & Hbx & Hb)]).
  { rewrite Hnil. constructor. }
  specialize (Hraw fr sx sy r bx Hres Hmod Hbx). rewrite Hb.
  assert (HW : 0 < inject_Z (width frame)) by now apply inject_Z_pos.
  assert (HH : 0 < inject_Z (height frame)) by now apply inject_Z_pos.
  assert (Hlim : (0 < 640 <= 2 ^ 40)%Z) by (split; [reflexivity | discriminate]).
  destruct (maybe_resize_cases frame 640 fr sx sy Hres)
    as [(Hm & -> & -> & ->) | (Hm & Es & -> & Ew & Eh)].
  - change (rescale_boxes 1 1 (YOLO.xyxy bx)) with (YOLO.xyxy bx).
    eapply Forall_impl; [|exact Hraw].
    intros b. apply box_within_weaken; unfold eps; lra.
  - destruct (resize_scale_bounds _ 640 Hlim Hm) as (S0 & S1 & _).
    cbv zeta in S0, S1. rewrite <- Es in S0, S1. clear Es.
    set (scale := sx) in *.
    assert (Pw : 0 <= fmul (inject_Z (width frame)) scale).
    { unfold fmul. apply b64_nonneg. apply Qmult_le_0_compat; lra. }
    assert (Ph : 0 <= fmul (inject_Z (height frame)) scale).
    { unfold fmul. apply b64_nonneg. apply Qmult_le_0_compat; lra. }
    assert (Bw : inject_Z (width fr) <= fmul (inject_Z (width frame)) scale).
    { rewrite Ew, (int_of_float_floor _ Pw). apply Qfloor_le. }
    assert (Bh : inject_Z (height fr) <= fmul (inject_Z (height frame)) scale).
    { rewrite Eh, (int_of_float_floor _ Ph). apply Qfloor_le. }
    unfold rescale_boxes.
    assert (Ne : Qeq_bool scale 1 = false).
    { destruct (Qeq_bool scale 1) eqn:Q1; [|reflexivity].
      apply Qeq_bool_eq in Q1. lra. }
    rewrite Ne. cbn [negb orb]. apply Forall_map.
    eapply Forall_impl; [|exact Hraw].
    intros [[[x1 y1] x2] y2]. unfold box_within, rescale_box.
    intros [[[? ?] [? ?]] [[? ?] [? ?]]].
    repeat split;
      (apply (rescaled_coord_within _ (inject_Z (width frame)) scale);
         try assumption; lra) ||
      (apply (rescaled_coord_within _ (inject_Z (height frame)) scale);
         try assumption; lra).
Qed.

(** A 1077 x 300 frame in the sample environment: the model reports a box
    that fills the 639 x 178 image it is given, and the box reported for the
    frame lies within 1077 x 300. *)
Lemma rescaled_boxes_within_frame_witness :
  let frame := mkFrame 1077 300 [x01] in
  let det :=
    {| labels := ["drowsy"%string];
       boxes := [(0, 0, 5269574402860647 # 17592186044416,
                        4729295004814541 # 4398046511104)];
       confs := [8106479329266893 # 9007199254740992];
       drowsy := true |} in
  @_detect_labels_and_boxes Sample.env default_config frame 100 initial_alert
  = Ret (det, {| _last_alert_ts := 100; esp32_requests := ["crit"%string] |})
  /\ Forall (box_within (300 * (1 + 4 * eps)) (1077 * (1 + 4 * eps))) (boxes det).
Proof.
  cbv zeta.
  assert (D : @_detect_labels_and_boxes Sample.env default_config
                (mkFrame 1077 300 [x01]) 100 initial_alert
              = Ret ({| labels := ["drowsy"%string];
                        boxes := [(0, 0, 5269574402860647 # 17592186044416,
                                         4729295004814541 # 4398046511104)];
                        confs := [8106479329266893 # 9007199254740992];
                        drowsy := true |},
                     {| _last_alert_ts := 100; esp32_requests := ["crit"%string] |}))
    by (vm_compute; reflexivity).
  split; [exact D|].
  refine (@rescaled_boxes_within_frame Sample.env default_config
            (mkFrame 1077 300 [x01]) 100 initial_alert _ _ eq_refl eq_refl _ D).
  intros fr sx sy r bx H1 H2 H3.
  vm_compute in H1. injection H1 as <- _ _.
  vm_compute in H2. injection H2 as <-.
  vm_compute in H3. injection H3 as <-.
  constructor; [|constructor].
  cbv [box_within inject_Z width height].
  repeat split; apply Qle_bool_iff; reflexivity.
Defined.

(** C6 as stated fails by the rounding of the rescaling.  A frame 480
    pixels high and 656 wide is resized to 468 x 640; the model reports the
    box that fills the image it is given, which lies within that image; the
    box reported for the frame has its right edge at 656 + 2^-43, outside
    the frame. *)
Lemma in_frame_box_leaves_frame_counterexample :
  @_maybe_resize Sample.env (mkFrame 480 656 [x01]) 640
  = Ret (mkFrame 468 640 [x01],
         1098438933504999 # 1125899906842624, 1098438933504999 # 1125899906842624)
  /\ @model Sample.env (mkFrame 468 640 [x01])
     = Ret (Sample.one_box 1 (b64 (9 # 10)) (0, 0, 640, 468))
  /\ box_within 640 468 (0, 0, 640, 468)
  /\ @_detect_labels_and_boxes Sample.env default_config
       (mkFrame 480 656 [x01]) 100 initial_alert
     = Ret ({| labels := ["drowsy"%string];
               boxes := [(0, 0, 5770237022568449 # 8796093022208,
                                2109742911376589 # 4398046511104)];
               confs := [8106479329266893 # 9007199254740992];
               drowsy := true |},
            {| _last_alert_ts := 100; esp32_requests := ["crit"%string] |})
  /\ ~ box_within 656 480
         (0, 0, 5770237022568449 # 8796093022208, 2109742911376589 # 4398046511104)
  /\ (5770237022568449 # 8796093022208) == 656 + (1 # 8796093022208).
Proof.
  split; [vm_compute; reflexivity|]. split; [vm_compute; reflexivity|].
  split; [unfold box_within; repeat split; apply Qle_bool_iff; reflexivity|].
  split; [vm_compute; reflexivity|]. split; [|reflexivity].
  unfold box_within. intros [[_ [_ H]] _].
  apply Qle_bool_iff in H. discriminate.
Qed.

(** ** The alert cooldown *)

Lemma alert_dispatched (cfg : Config) (now : Q) (a : AlertState) :
  ALERT_COOLDOWN_S cfg <= now - _last_alert_ts a ->
  alert_with_cooldown cfg now a
  = {| _last_alert_ts := now;
       esp32_requests := esp32_requests a ++ [ESP32_ALERT_LEVEL cfg] |}.
Proof.
  intros H. unfold alert_with_cooldown.
  apply Qle_bool_iff in H. rewrite H. reflexivity.
Qed.

Lemma alert_suppressed (cfg : Config) (now : Q) (a : AlertState) :
  now - _last_alert_ts a < ALERT_COOLDOWN_S cfg ->
  alert_with_cooldown cfg now a = a.
Proof.
  intros H. unfold alert_with_cooldown.
  destruct (Qle_bool (ALERT_COOLDOWN_S cfg) (now - _last_alert_ts a)) eqn:C;
    [|reflexivity].
  apply Qle_bool_iff in C. lra.
Qed.

(** With a cooldown that is not negative the timestamp never goes back,
    whatever the clock reads. *)
Lemma last_alert_monotone (cfg : Config) (now : Q) (a : AlertState) :
  0 <= ALERT_COOLDOWN_S cfg ->
  _last_alert_ts a <= _last_alert_ts (alert_with_cooldown cfg now a).
Proof.
  intros Hc. unfold alert_with_cooldown.
  destruct (Qle_bool (ALERT_COOLDOWN_S cfg) (now - _last_alert_ts a)) eqn:C.
  - apply Qle_bool_iff in C. cbn [_last_alert_ts]. lra.
  - lra.
Qed.

(** Attempts one after the other.  Two attempts with a true verdict, at
    [t1] and then at [t2], the first of which dispatches and has left the
    block when the second enters it.  When [t2] is less than the cooldown
    after [t1], the second attempt changes nothing: one request was made and
    the timestamp stays [t1].  When [t2] is at least the cooldown after
    [t1], both attempts make a request and each sets the timestamp to its
    own clock reading.  The timestamp never decreases. *)
Lemma cooldown_debounce (cfg : Config) (a : AlertState) (t1 t2 : Q) :
  0 <= ALERT_COOLDOWN_S cfg ->
  ALERT_COOLDOWN_S cfg <= t1 - _last_alert_ts a ->
  let level := ESP32_ALERT_LEVEL cfg in
  let a1 := alert_with_cooldown cfg t1 a in
  let a2 := alert_with_cooldown cfg t2 a1 in
  a1 = {| _last_alert_ts := t1; esp32_requests := esp32_requests a ++ [level] |}
  /\ (t2 - t1 < ALERT_COOLDOWN_S cfg -> a2 = a1)
  /\ (ALERT_COOLDOWN_S cfg <= t2 - t1 ->
      a2 = {| _last_alert_ts := t2;
              esp32_requests := esp32_requests a ++ [level; level] |})
  /\ _last_alert_ts a <= _last_alert_ts a1 <= _last_alert_ts a2.
Proof.
  intros Hc H1. cbv zeta.
  rewrite (alert_dispatched cfg t1 a H1). split; [reflexivity|]. split; [|split].
  - intros H2. apply alert_suppressed. exact H2.
  - intros H2. rewrite alert_dispatched by exact H2.
    cbn [esp32_requests]. rewrite <- app_assoc. reflexivity.
  - split.
    + cbn [_last_alert_ts]. lra.
    + apply last_alert_monotone. exact Hc.
Qed.

(** The default cooldown of two seconds: a second attempt one second after
    the first makes no request, and one three seconds after it does. *)
Lemma cooldown_debounce_example :
  alert_with_cooldown default_config 1700000001
    (alert_with_cooldown default_config 1700000000 initial_alert)
  = {| _last_alert_ts := 1700000000; esp32_requests := ["crit"%string] |}
  /\
  alert_with_cooldown default_config 1700000003
    (alert_with_cooldown default_config 1700000000 initial_alert)
  = {| _last_alert_ts := 1700000003; esp32_requests := ["crit"; "crit"]%string |}.
Proof.
  split.
  - destruct (cooldown_debounce default_config initial_alert 1700000000 1700000001)
      as (E1 & Near & _); [discriminate | discriminate |].
    cbv zeta in *. rewrite (Near eq_refl). exact E1.
  - destruct (cooldown_debounce default_config initial_alert 1700000000 1700000003)
      as (_ & _ & Far & _); [discriminate | discriminate |].
    cbv zeta in *. exact (Far ltac:(discriminate)).
Defined.

(** A thread that runs the block with no other thread in between does what
    [alert_with_cooldown] does. *)
Lemma alert_block_alone (cfg : Config) (now : Q) (p2 : AlertPc) (a : AlertState) :
  run_threads cfg [First; First; First] (AtTest now) p2 a
  = (Past, p2, alert_with_cooldown cfg now a).
Proof.
  unfold alert_with_cooldown. cbn [run_threads alert_statement].
  destruct (Qle_bool (ALERT_COOLDOWN_S cfg) (now - _last_alert_ts a)); reflexivity.
Qed.

(** Two threads that both pass the test before either stores: whatever the
    clock readings, both make a request, and the timestamp ends at the
    reading of the thread that stores last. *)
Lemma alert_block_overlap (cfg : Config) (t1 t2 : Q) (a : AlertState) :
  ALERT_COOLDOWN_S cfg <= t1 - _last_alert_ts a ->
  ALERT_COOLDOWN_S cfg <= t2 - _last_alert_ts a ->
  run_threads cfg [First; Second; Second; Second; First; First]
    (AtTest t1) (AtTest t2) a
  = (Past, Past,
     {| _last_alert_ts := t1;
        esp32_requests :=
          esp32_requests a ++ [ESP32_ALERT_LEVEL cfg; ESP32_ALERT_LEVEL cfg] |}).
Proof.
  intros H1 H2. apply Qle_bool_iff in H1. apply Qle_bool_iff in H2.
  cbn [run_threads alert_statement]. rewrite H1. cbn [run_threads alert_statement].
  rewrite H2. cbn [run_threads alert_statement _trigger_esp32 esp32_requests].
  rewrite <- app_assoc. reflexivity.
Qed.

(** C5, the code at two attempts that overlap.  Two worker threads, the
    default cooldown of two seconds, no alert so far; the first thread reads
    the clock at [t1 = 1700000000], the second one second later.  The first
    passes the test; before it has stored its timestamp the second passes
    the test too, makes its request and stores [t1 + 1]; then the first
    makes its request and stores [t1].  Two requests have been made one
    second apart, and the timestamp has gone back from [t1 + 1] to [t1]. *)
Theorem overlapping_attempts_both_notify :
  run_threads default_config [First; Second; Second; Second]
    (AtTest 1700000000) (AtTest 1700000001) initial_alert
  = (AtRequest 1700000000, Past,
     {| _last_alert_ts := 1700000001; esp32_requests := ["crit"%string] |})
  /\ run_threads default_config [First; Second; Second; Second; First; First]
       (AtTest 1700000000) (AtTest 1700000001) initial_alert
     = (Past, Past,
        {| _last_alert_ts := 1700000000; esp32_requests := ["crit"; "crit"]%string |})
  /\ 1700000001 - 1700000000 < ALERT_COOLDOWN_S default_config
  /\ run_threads default_config [First; First; First; Second; Second; Second]
       (AtTest 1700000000) (AtTest 1700000001) initial_alert
     = (Past, Past,
        {| _last_alert_ts := 1700000000; esp32_requests := ["crit"%string] |}).
Proof. repeat split. Qed.

(** The alert state [_detect_labels_and_boxes] leaves. *)
Lemma detect_alert_state {E : External} (cfg : Config)
    (frame : Frame Pixels) (now : Q) (a : AlertState) (det : Det) (a' : AlertState) :
  _detect_labels_and_boxes cfg frame now a = Ret (det, a') ->
  a' = (if drowsy det then alert_with_cooldown cfg now a else a).
Proof.
  unfold _detect_labels_and_boxes, bind.
  destruct (_maybe_resize frame 640) as [[[fr sx] sy]|]; [|discriminate].
  destruct (model fr) as [r|]; [|discriminate].
  destruct (YOLO.boxes r) as [bx|].
  - destruct (YOLO.cls bx) as [cls|].
    + destruct (label_list (YOLO.names r) cls) as [ls|]; [|discriminate].
      intros H. injection H as <- <-. reflexivity.
    + intros H. injection H as <- <-. reflexivity.
  - intros H. injection H as <- <-. reflexivity.
Qed.



(** ** The websocket session *)

(** Through a session that runs alone the timestamp of the last alert never
    goes back, when the cooldown is not negative. *)
Lemma ws_iteration_alert_monotone {E : External} (cfg : Config)
    (busy : bool) (w : World) (a : Arrival) (busy' : bool) (w' : World) :
  0 <= ALERT_COOLDOWN_S cfg ->
  ws_iteration cfg busy w a = Next busy' w' ->
  _last_alert_ts (alert w) <= _last_alert_ts (alert w').
Proof.
  intros Hc. unfold ws_iteration.
  destruct (received a) as [data|]; [|discriminate].
  destruct (cv2_imdecode data) as [[frame|]|]; [| |discriminate].
  - destruct busy.
    + intros H. injection H as <- <-. apply Qle_refl.
    + destruct (_detect_labels_and_boxes cfg frame (clock a) (alert w))
        as [[det al]|e] eqn:D; intros H; injection H as <- <-; cbn [alert send_json].
      * rewrite (detect_alert_state cfg frame (clock a) (alert w) det al D).
        destruct (drowsy det); [now apply last_alert_monotone | apply Qle_refl].
      * apply Qle_refl.
  - intros H. injection H as <- <-. apply Qle_refl.
Qed.

Lemma ws_loop_alert_monotone {E : External} (cfg : Config) (script : list Arrival) :
  0 <= ALERT_COOLDOWN_S cfg ->
  forall (busy : bool) (w : World) (busy' : bool) (w' : World),
    ws_loop cfg busy w script = Next busy' w' ->
    _last_alert_ts (alert w) <= _last_alert_ts (alert w').
Proof.
  intros Hc. induction script as [|a rest IH]; intros busy w busy' w'; cbn [ws_loop].
  - intros H. injection H as <- <-. apply Qle_refl.
  - destruct (ws_iteration cfg busy w a) as [b1 w1|] eqn:It; [|discriminate].
    intros H. apply Qle_trans with (_last_alert_ts (alert w1)).
    + exact (ws_iteration_alert_monotone cfg busy w a b1 w1 Hc It).
    + exact (IH b1 w1 busy' w' H).
Qed.

(** A pass through the loop body that reaches its end or a [continue] leaves
    [busy] as it found it or false, and sends at most one message. *)
Lemma ws_iteration_next {E : External} (cfg : Config)
    (busy : bool) (w : World) (a : Arrival) (busy' : bool) (w' : World) :
  ws_iteration cfg busy w a = Next busy' w' ->
  (busy' = busy \/ busy' = false) /\
  (busy = false -> exists j, outbox w' = outbox w ++ [j]).
Proof.
  unfold ws_iteration.
  destruct (received a) as [data|]; [|discriminate].
  destruct (cv2_imdecode data) as [[frame|]|]; [| |discriminate].
  - destruct busy.
    + intros H. injection H as <- <-. split; [now left | discriminate].
    + destruct (_detect_labels_and_boxes cfg frame (clock a) (alert w))
        as [[det al]|e]; intros H; injection H as <- <-;
        (split; [now left | intros _; eexists; reflexivity]).
  - intros H. injection H as <- <-. split; [now left|].
    intros _. eexists. reflexivity.
Qed.

(** From [busy = False] the loop comes back to its head with [busy = False],
    having sent one message for every arrival it handled. *)
Lemma ws_loop_invariant {E : External} (cfg : Config) (script : list Arrival) :
  forall (w : World) (busy : bool) (w' : World),
    ws_loop cfg false w script = Next busy w' ->
    busy = false /\
    exists sent, outbox w' = outbox w ++ sent /\ List.length sent = List.length script.
Proof.
  induction script as [|a rest IH]; intros w busy w'; cbn [ws_loop].
  - intros H. injection H as <- <-. split; [reflexivity|].
    exists []. rewrite app_nil_r. split; reflexivity.
  - destruct (ws_iteration cfg false w a) as [b1 w1|] eqn:It; [|discriminate].
    destruct (ws_iteration_next cfg false w a b1 w1 It) as [Hb Hs].
    assert (b1 = false) by (destruct Hb; assumption). subst b1.
    destruct (Hs eq_refl) as [j Hj].
    intros H. destruct (IH w1 busy w' H) as [Hbusy (sent & Hsent & Hlen)].
    split; [exact Hbusy|]. exists (j :: sent). split.
    + rewrite Hsent, Hj, <- app_assoc. reflexivity.
    + cbn [List.length]. now rewrite Hlen.
Qed.



(** C2, the code at two frames sent back to back.  The client sends a
    drowsy frame and, while it is being classified, an alert frame.  The
    session reads the second message only after the result of the first has
    been sent, with [busy] false again: the second frame is classified and
    answered, so two frames get two results and nothing is dropped. *)
Theorem frame_sent_during_inference_is_answered :
  @ws_infer Sample.env default_config Sample.world0
     [Sample.arrival (Sample.message 480 640 [x01]) 1700000000;
      Sample.arrival (Sample.message 480 640 [x02]) 1700000000]
  = Ret (Receiving
           {| alert := {| _last_alert_ts := 1700000000;
                          esp32_requests := ["crit"%string] |};
              outbox :=
                [JDet {| labels := ["drowsy"%string];
                         boxes := [(0, 0, 640, 480)];
                         confs := [8106479329266893 # 9007199254740992];
                         drowsy := true |};
                 JDet {| labels := ["alert"%string];
                         boxes := [(0, 0, 640, 480)];
                         confs := [3602879701896397 # 4503599627370496];
                         drowsy := false |}] |}).
Proof. vm_compute. reflexivity. Qed.

Lemma ws_loop_app {E : External} (cfg : Config) (pre post : list Arrival) :
  forall (busy : bool) (w : World),
    ws_loop cfg busy w (pre ++ post)
    = match ws_loop cfg busy w pre with
      | Next b w1 => ws_loop cfg b w1 post
      | Abort e w1 => Abort e w1
      end.
Proof.
  induction pre as [|a pre IH]; intros busy w; cbn [ws_loop app].
  - reflexivity.
  - destruct (ws_iteration cfg busy w a) as [b1 w1|e w1]; [apply IH | reflexivity].
Qed.

(** The failures the loop handles, and those that end it.  A buffer for
    which the decoder returns no image is answered by
    [{"error": "decode_failed"}] and the loop goes on with the next message
    from the same state.  A frame whose classification
    raises is answered by the error text with empty labels, boxes and
    confidences and [drowsy] false, and the loop goes on.  An exception
    raised by the receive or by the decoder call leaves the loop: [ws_infer]
    returns, after sending the error text unless the exception is the
    disconnect.  Whatever arrives, [ws_infer] returns without raising. *)
Lemma per_frame_failures_are_reported {E : External} (cfg : Config)
    (w : World) (busy : bool) (a : Arrival) (rest : list Arrival) :
  (forall data,
      received a = Ret data -> cv2_imdecode data = Ret None ->
      ws_iteration cfg busy w a = Next busy (send_json (JError "decode_failed") w)
      /\ ws_loop cfg busy w (a :: rest)
         = ws_loop cfg busy (send_json (JError "decode_failed") w) rest)
  /\ (forall data frame e,
        received a = Ret data -> cv2_imdecode data = Ret (Some frame) ->
        _detect_labels_and_boxes cfg frame (clock a) (alert w) = Raise e ->
        let reply := JDetError (str_of_exn e) empty_det in
        ws_iteration cfg false w a = Next false (send_json reply w)
        /\ ws_loop cfg false w (a :: rest) = ws_loop cfg false (send_json reply w) rest)
  /\ (forall e w0 pre,
        received a = Raise e \/
        (exists data, received a = Ret data /\ cv2_imdecode data = Raise e) ->
        ws_loop cfg false w0 pre = Next busy w ->
        ws_infer cfg w0 (pre ++ a :: rest)
        = Ret (Returned match e with
                        | WebSocketDisconnect => w
                        | Exception msg => send_json (JError msg) w
                        end))
  /\ (forall w0 script, exists s, ws_infer cfg w0 script = Ret s).
Proof.
  split; [|split; [|split]].
  - intros data Hr Hd.
    assert (Hi : ws_iteration cfg busy w a
                 = Next busy (send_json (JError "decode_failed") w)).
    { unfold ws_iteration. rewrite Hr, Hd. reflexivity. }
    split; [exact Hi|]. cbn [ws_loop]. rewrite Hi. reflexivity.
  - intros data frame e Hr Hd Hx. cbv zeta.
    assert (Hi : ws_iteration cfg false w a
                 = Next false (send_json (JDetError (str_of_exn e) empty_det) w)).
    { unfold ws_iteration. rewrite Hr, Hd, Hx. destruct w; reflexivity. }
    split; [exact Hi|]. cbn [ws_loop]. rewrite Hi. reflexivity.
  - intros e w0 pre Hraise Hpre.
    assert (Hi : ws_iteration cfg busy w a = Abort e w).
    { unfold ws_iteration. destruct Hraise as [Hr | (data & Hr & Hd)].
      - rewrite Hr. reflexivity.
      - rewrite Hr, Hd. reflexivity. }
    unfold ws_infer. rewrite ws_loop_app, Hpre. cbn [ws_loop]. rewrite Hi.
    destruct e; reflexivity.
  - intros w0 script. unfold ws_infer.
    destruct (ws_loop cfg false w0 script) as [b w'|[|msg] w']; eexists; reflexivity.
Qed.

(** In the sample environment: a buffer that holds no image, then a frame on
    which the model raises, then a drowsy frame.  All three are answered and
    the session is still receiving. *)
Lemma per_frame_failures_are_reported_example :
  let script :=
    [Sample.arrival [x00] 1700000000;
     Sample.arrival (Sample.message 480 640 [x03]) 1700000001;
     Sample.arrival (Sample.message 480 640 [x01]) 1700000002] in
  @ws_loop Sample.env default_config false Sample.world0 script
  = Next false
      {| alert := {| _last_alert_ts := 1700000002; esp32_requests := ["crit"%string] |};
         outbox :=
           [JError "decode_failed";
            JDetError "CUDA error: out of memory" empty_det;
            JDet {| labels := ["drowsy"%string]; boxes := [(0, 0, 640, 480)];
                    confs := [8106479329266893 # 9007199254740992];
                    drowsy := true |}] |}.
Proof.
  cbv zeta.
  destruct (@per_frame_failures_are_reported Sample.env default_config Sample.world0
              false (Sample.arrival [x00] 1700000000)
              [Sample.arrival (Sample.message 480 640 [x03]) 1700000001;
               Sample.arrival (Sample.message 480 640 [x01]) 1700000002])
    as (Dec & _).
  destruct (Dec [x00] eq_refl eq_refl) as [_ Step1]. rewrite Step1.
  destruct (@per_frame_failures_are_reported Sample.env default_config
              (send_json (JError "decode_failed") Sample.world0)
              false (Sample.arrival (Sample.message 480 640 [x03]) 1700000001)
              [Sample.arrival (Sample.message 480 640 [x01]) 1700000002])
    as (_ & Inf & _).
  destruct (Inf (Sample.message 480 640 [x03]) (mkFrame 480 640 [x03])
              (Exception "CUDA error: out of memory") eq_refl eq_refl eq_refl)
    as [_ Step2].
  cbv zeta in Step2. rewrite Step2. vm_compute. reflexivity.
Defined.

(** C9, the code at an empty message.  The sample decoder, like OpenCV's,
    raises on an empty buffer.  The session sends the text of the exception
    and returns: the valid frame that follows is not processed, and no
    [decode_failed] is sent.  The upload path refuses the same buffer in
    [_read_all], before the decoder is called. *)
Theorem empty_buffer_ends_session :
  @ws_infer Sample.env default_config Sample.world0
     [Sample.arrival [] 1700000000;
      Sample.arrival (Sample.message 480 640 [x01]) 1700000001]
  = Ret (Returned
           {| alert := initial_alert;
              outbox := [JError "cv2.error: !buf.empty() in function imdecode_"] |})
  /\ @cv2_imdecode Sample.env []
     = Raise (Exception "cv2.error: !buf.empty() in function imdecode_")
  /\ @read_and_decode Sample.env [] = HTTPException 400 "Empty file.".
Proof. repeat split. Qed.

(** ** The smoothing buffer of [DrowsinessDetector] *)

Lemma lastn_length {A : Type} (n : nat) (l : list A) :
  (List.length (lastn n l) <= n)%nat.
Proof. unfold lastn. rewrite length_skipn. lia. Qed.

Lemma lastn_app_lastn {A : Type} (n : nat) (l r : list A) :
  lastn n (lastn n l ++ r) = lastn n (l ++ r).
Proof.
  unfold lastn. rewrite !length_app, length_skipn.
  destruct (Nat.le_gt_cases (List.length l) n) as [Hle | Hgt].
  - replace (List.length l - n)%nat with 0%nat by lia.
    cbn [skipn]. rewrite Nat.sub_0_r. reflexivity.
  - set (k := (List.length l - n)%nat).
    replace (List.length l - k + List.length r - n)%nat with (List.length r) by lia.
    replace (List.length l + List.length r - n)%nat with (List.length r + k)%nat by lia.
    rewrite <- skipn_skipn, (skipn_app k l r).
    replace (k - List.length l)%nat with 0%nat by lia. reflexivity.
Qed.

Lemma lastn_app_exact {A : Type} (l r : list A) :
  lastn (List.length r) (l ++ r) = r.
Proof.
  unfold lastn. rewrite length_app.
  replace (List.length l + List.length r - List.length r)%nat with (List.length l) by lia.
  rewrite skipn_app, skipn_all, Nat.sub_diag. reflexivity.
Qed.

Lemma buffer_append_lastn (n : nat) (buf : list bool) (v : bool) :
  (List.length buf <= n)%nat ->
  Detector.buffer_append (Z.of_nat n) buf v = lastn n (buf ++ [v]).
Proof.
  intros Hlen. unfold Detector.buffer_append, lastn.
  rewrite length_app. cbn [List.length].
  destruct (Z.gtb_spec (Z.of_nat (List.length buf + 1)) (Z.of_nat n)) as [Hgt | Hle].
  - replace (List.length buf + 1 - n)%nat with 1%nat by lia.
    destruct (buf ++ [v]); reflexivity.
  - replace (List.length buf + 1 - n)%nat with 0%nat by lia. reflexivity.
Qed.

Lemma Qle_bool_ceiling (x : Q) (z : Z) :
  Qle_bool x (inject_Z z) = (Qceiling x <=? z)%Z.
Proof.
  destruct (Z.leb_spec (Qceiling x) z) as [H | H].
  - apply Qle_bool_iff. apply Qle_trans with (inject_Z (Qceiling x)).
    + apply Qle_ceiling.
    + now rewrite <- Zle_Qle.
  - destruct (Qle_bool x (inject_Z z)) eqn:C; [|reflexivity].
    apply Qle_bool_iff in C. apply Qceiling_resp_le in C.
    rewrite Qceiling_Z in C. lia.
Qed.



Lemma smoothed_five (buf : list bool) :
  Detector.smoothed 5 buf = (3 <=? Detector.py_sum buf)%Z.
Proof.
  unfold Detector.smoothed. rewrite Qle_bool_ceiling. reflexivity.
Qed.



(** When nothing raises, [detect] pushes the verdict of the frame: the
    smoothed verdict it returns and the detector it leaves are those of
    [push]. *)
Lemma detect_pushes_frame_verdict (d : Detector.DrowsinessDetector)
    (bxs : list Detector.box) (u : unit) :
  let acc := fold_left (Detector.scan_box (Detector.drowsiness_threshold d)) bxs (false, 0) in
  Detector.detect d (Ret bxs) (Ret u)
  = (fst (Detector.push d (fst acc)), (snd (Detector.push d (fst acc)), snd acc)).
Proof.
  cbv zeta. unfold Detector.detect.
  destruct (fold_left _ bxs (false, 0)) as [v c]. reflexivity.
Qed.

(** When the overlay raises, the verdict of the frame is in the buffer all
    the same; the counters are not touched and the result is
    [(False, 0.0)]. *)
Lemma detect_overlay_raises (d : Detector.DrowsinessDetector)
    (bxs : list Detector.box) (e : exn) :
  Detector.detect d (Ret bxs) (Raise e)
  = ({| Detector.drowsiness_threshold := Detector.drowsiness_threshold d;
        Detector.alert_threshold := Detector.alert_threshold d;
        Detector.frame_buffer :=
          Detector.buffer_append (Detector.buffer_size d) (Detector.frame_buffer d)
            (frame_verdict (Detector.drowsiness_threshold d) bxs);
        Detector.buffer_size := Detector.buffer_size d;
        Detector.total_frames := Detector.total_frames d;
        Detector.drowsy_frames := Detector.drowsy_frames d |},
     (false, 0)).
Proof.
  unfold Detector.detect, frame_verdict.
  destruct (fold_left _ bxs (false, 0)) as [v c]. reflexivity.
Qed.

(** One frame with a drowsy box of confidence 0.9 on a fresh detector: the
    frame verdict is true, the smoothed verdict is still false. *)
Example detect_first_drowsy_frame :
  Detector.detect Detector.init (Ret [(1%Z, b64 (9 # 10))]) (Ret tt)
  = ({| Detector.drowsiness_threshold := 1 # 2;
        Detector.alert_threshold := b64 (7 # 10);
        Detector.frame_buffer := [true];
        Detector.buffer_size := 5;
        Detector.total_frames := 1;
        Detector.drowsy_frames := 0 |},
     (false, b64 (9 # 10))).
Proof. reflexivity. Qed.

(** The same frame when drawing the overlay raises: [detect] reports
    [(False, 0.0)], the verdict is in the buffer and no frame is counted. *)
Example detect_overlay_failure :
  Detector.detect Detector.init (Ret [(1%Z, b64 (9 # 10))])
    (Raise (Exception "cv2.error"))
  = ({| Detector.drowsiness_threshold := 1 # 2;
        Detector.alert_threshold := b64 (7 # 10);
        Detector.frame_buffer := [true];
        Detector.buffer_size := 5;
        Detector.total_frames := 0;
        Detector.drowsy_frames := 0 |},
     (false, 0)).
Proof. reflexivity. Qed.

(** * Part III: further properties of the code *)

(** ** The keyword match, label by label *)

(** X1: the frame verdict is decided label by label.  It is true exactly
    when one single label, lowercased, contains one of the keywords: the
    labels are joined with spaces and no keyword has a space, so a keyword
    never matches across two labels. *)
Theorem verdict_is_per_label (ls : list string) :
  is_drowsy ls = true <->
  exists l k, In l ls /\ In k drowsy_keywords /\ PyStr.Substring k (PyStr.lower l).
Proof.
  rewrite is_drowsy_spec. split.
  - intros (k & Hk & Hs). destruct (keywords_plain k Hk) as [Hne Hsp].
    apply (substring_join_iff k ls Hne Hsp) in Hs. destruct Hs as (l & Hin & Hl).
    exists l, k. repeat split; assumption.
  - intros (l & k & Hin & Hk & Hl). destruct (keywords_plain k Hk) as [Hne Hsp].
    exists k. split; [exact Hk|].
    apply (substring_join_iff k ls Hne Hsp). exists l. split; assumption.
Qed.

(** X2: the frame verdict depends only on the set of lowercased labels: the
    order of the labels, their repetitions and their case do not matter. *)
Theorem verdict_ignores_case_and_order (ls ls' : list string) :
  (forall l, In l (map PyStr.lower ls) <-> In l (map PyStr.lower ls')) ->
  is_drowsy ls = is_drowsy ls'.
Proof.
  intros Hset.
  assert (Half : forall a b : list string,
             (forall l, In l (map PyStr.lower a) -> In l (map PyStr.lower b)) ->
             is_drowsy a = true -> is_drowsy b = true).
  { intros a b Hab Ha. apply is_drowsy_spec in Ha. apply is_drowsy_spec.
    destruct Ha as (k & Hk & Hs). destruct (keywords_plain k Hk) as [Hne Hsp].
    exists k. split; [exact Hk|].
    apply (substring_join_iff k a Hne Hsp) in Hs. destruct Hs as (l & Hin & Hl).
    assert (Hl' : In (PyStr.lower l) (map PyStr.lower b))
      by (apply Hab; now apply in_map).
    apply in_map_iff in Hl'. destruct Hl' as (l' & El & Hin').
    apply (substring_join_iff k b Hne Hsp). exists l'. split; [exact Hin'|].
    now rewrite El. }
  destruct (is_drowsy ls) eqn:A; destruct (is_drowsy ls') eqn:B; try reflexivity.
  - rewrite (Half ls ls' (fun l => proj1 (Hset l)) A) in B. discriminate.
  - rewrite (Half ls' ls (fun l => proj2 (Hset l)) B) in A. discriminate.
Qed.

Lemma verdict_ignores_case_and_order_witness :
  is_drowsy ["Drowsy"; "alert"]%string = is_drowsy ["ALERT"; "drowsy"; "alert"]%string.
Proof.
  apply verdict_ignores_case_and_order. intros l. simpl. tauto.
Defined.

(** ** Class names and the shape of a result *)

Lemma label_list_ret (names : list (Z * string)) (cls : list Q) : forall ls,
  label_list names cls = Ret ls <->
  Forall2 (fun c l => dict_get names (int_of_float c) = Some l) cls ls.
Proof.
  induction cls as [|c rest IH]; intros ls; cbn [label_list].
  - split.
    + intros H. injection H as <-. constructor.
    + intros H. inversion H. reflexivity.
  - destruct (dict_get names (int_of_float c)) as [l|] eqn:G.
    + unfold bind. destruct (label_list names rest) as [ls'|e] eqn:R.
      * split.
        -- intros H. injection H as <-. constructor; [exact G | now apply IH].
        -- intros H. inversion H as [|c0 l0 cs0 ls0 Hl Hrest]; subst.
           rewrite G in Hl. injection Hl as <-.
           apply IH in Hrest. injection Hrest as <-. reflexivity.
      * split; [discriminate|].
        intros H. inversion H as [|c0 l0 cs0 ls0 Hl Hrest]; subst.
        apply IH in Hrest. discriminate.
    + split; [discriminate|].
      intros H. inversion H as [|c0 l0 cs0 ls0 Hl Hrest]; subst.
      rewrite G in Hl. discriminate.
Qed.

(** X3: the labels of a result are the names of the class ids, in order,
    when every class id has a name; otherwise the lookup raises the
    [KeyError] of the first class id that has none. *)
Theorem label_list_names_or_key_error (names : list (Z * string)) (cls : list Q) :
  (forall ls,
      label_list names cls = Ret ls <->
      Forall2 (fun c l => dict_get names (int_of_float c) = Some l) cls ls)
  /\ (forall e,
        label_list names cls = Raise e <->
        exists pre c post,
          cls = pre ++ c :: post
          /\ Forall (fun c' => dict_get names (int_of_float c') <> None) pre
          /\ dict_get names (int_of_float c) = None
          /\ e = key_error (int_of_float c)).
Proof.
  split; [apply label_list_ret|].
  induction cls as [|c rest IH]; intros e; cbn [label_list].
  - split; [discriminate|].
    intros (pre & c & post & H & _). destruct pre; discriminate.
  - destruct (dict_get names (int_of_float c)) as [l|] eqn:G.
    + unfold bind. destruct (label_list names rest) as [ls'|e'] eqn:R.
      * split; [discriminate|].
        intros (pre & c1 & post & H & Hpre & Hnone & _).
        destruct pre as [|p pre]; cbn [app] in H; injection H as -> ->.
        -- rewrite G in Hnone. discriminate.
        -- assert (X : Ret ls' = Raise (key_error (int_of_float c1))).
           { apply IH. exists pre, c1, post. inversion Hpre; subst.
             repeat split; assumption. }
           discriminate.
      * split.
        -- intros H. injection H as <-.
           destruct (proj1 (IH e') eq_refl) as (pre & c1 & post & -> & Hpre & Hnone & ->).
           exists (c :: pre), c1, post. repeat split; try assumption.
           constructor; [rewrite G; discriminate | exact Hpre].
        -- intros (pre & c1 & post & H & Hpre & Hnone & ->).
           destruct pre as [|p pre]; cbn [app] in H; injection H as -> ->.
           ++ rewrite G in Hnone. discriminate.
           ++ f_equal. assert (X : @Raise (list string) e' = Raise (key_error (int_of_float c1))).
              { apply IH. exists pre, c1, post. inversion Hpre; subst.
                repeat split; assumption. }
              injection X as ->. reflexivity.
    + split.
      * intros H. injection H as <-. exists [], c, rest.
        repeat split; [constructor | exact G].
      * intros (pre & c1 & post & H & Hpre & Hnone & ->).
        destruct pre as [|p pre]; cbn [app] in H; injection H as -> ->.
        -- reflexivity.
        -- inversion Hpre; subst. contradiction.
Qed.

(** X4: [_detect_labels_and_boxes] raises in three cases only: the resize
    raises, the model call raises, or a class id of the result has no name;
    the exception is the one raised there. *)
Theorem detect_raises_iff {E : External} (cfg : Config)
    (frame : Frame Pixels) (now : Q) (a : AlertState) (e : exn) :
  _detect_labels_and_boxes cfg frame now a = Raise e <->
  _maybe_resize frame 640 = Raise e
  \/ exists fr sx sy,
       _maybe_resize frame 640 = Ret (fr, sx, sy)
       /\ (model fr = Raise e
           \/ exists r bx cls,
                model fr = Ret r /\ YOLO.boxes r = Some bx /\ YOLO.cls bx = Some cls
                /\ label_list (YOLO.names r) cls = Raise e).
Proof.
  unfold _detect_labels_and_boxes, bind.
  destruct (_maybe_resize frame 640) as [[[fr sx] sy]|e0].
  - destruct (model fr) as [r|e1] eqn:M.
    + destruct (YOLO.boxes r) as [bx|] eqn:B.
      * destruct (YOLO.cls bx) as [cls|] eqn:C.
        -- destruct (label_list (YOLO.names r) cls) as [ls|e2] eqn:L.
           ++ split; [discriminate|].
              intros [H | (fr' & sx' & sy' & H & [Hm | (r' & bx' & cls' & Hm & Hb & Hc & Hl)])];
                try discriminate; injection H as <- <- <-.
              ** rewrite M in Hm. discriminate.
              ** rewrite M in Hm. injection Hm as <-. rewrite B in Hb. injection Hb as <-.
                 rewrite C in Hc. injection Hc as <-. rewrite L in Hl. discriminate.
           ++ split.
              ** intros H. injection H as <-. right. exists fr, sx, sy.
                 split; [reflexivity|]. right. exists r, bx, cls. repeat split; assumption.
              ** intros [H | (fr' & sx' & sy' & H & [Hm | (r' & bx' & cls' & Hm & Hb & Hc & Hl)])];
                   try discriminate; injection H as <- <- <-.
                 --- rewrite M in Hm. discriminate.
                 --- rewrite M in Hm. injection Hm as <-. rewrite B in Hb. injection Hb as <-.
                     rewrite C in Hc. injection Hc as <-. rewrite L in Hl.
                     injection Hl as <-. reflexivity.
        -- split; [discriminate|].
           intros [H | (fr' & sx' & sy' & H & [Hm | (r' & bx' & cls' & Hm & Hb & Hc & Hl)])];
             try discriminate; injection H as <- <- <-.
           ++ rewrite M in Hm. discriminate.
           ++ rewrite M in Hm. injection Hm as <-. rewrite B in Hb. injection Hb as <-.
              rewrite C in Hc. discriminate.
      * split; [discriminate|].
        intros [H | (fr' & sx' & sy' & H & [Hm | (r' & bx' & cls' & Hm & Hb & Hc & Hl)])];
          try discriminate; injection H as <- <- <-.
        -- rewrite M in Hm. discriminate.
        -- rewrite M in Hm. injection Hm as <-. rewrite B in Hb. discriminate.
    + split.
      * intros H. injection H as <-. right. exists fr, sx, sy.
        split; [reflexivity|]. now left.
      * intros [H | (fr' & sx' & sy' & H & [Hm | (r' & bx' & cls' & Hm & _)])];
          try discriminate; injection H as <- <- <-.
        -- rewrite M in Hm. injection Hm as <-. reflexivity.
        -- rewrite M in Hm. discriminate.
  - split.
    + intros H. injection H as <-. now left.
    + intros [H | (fr' & sx' & sy' & H & _)];
        [injection H as <-; reflexivity | discriminate].
Qed.

Lemma label_list_length (names : list (Z * string)) (cls : list Q) (ls : list string) :
  label_list names cls = Ret ls -> List.length ls = List.length cls.
Proof.
  intros H. apply label_list_ret in H. symmetry. exact (Forall2_length H).
Qed.

Lemma rescale_boxes_length (sx sy : Q) (bs : list YOLO.Box) :
  List.length (rescale_boxes sx sy bs) = List.length bs.
Proof.
  unfold rescale_boxes.
  destruct (negb (Qeq_bool sx 1) || negb (Qeq_bool sy 1)); [apply length_map | reflexivity].
Qed.

(** X5: the lists of a result belong together.  When the model reports as
    many rows of coordinates as class ids, and as many confidences when it
    reports confidences at all, the result has as many labels as boxes as
    confidences; without confidences every box gets the confidence 0.0. *)
Theorem detection_lists_aligned {E : External} (cfg : Config)
    (frame : Frame Pixels) (now : Q) (a : AlertState) (det : Det) (a' : AlertState) :
  (forall fr sx sy r bx cls,
      _maybe_resize frame 640 = Ret (fr, sx, sy) -> model fr = Ret r ->
      YOLO.boxes r = Some bx -> YOLO.cls bx = Some cls ->
      List.length (YOLO.xyxy bx) = List.length cls
      /\ (forall cf, YOLO.conf bx = Some cf -> List.length cf = List.length cls)) ->
  _detect_labels_and_boxes cfg frame now a = Ret (det, a') ->
  List.length (labels det) = List.length (boxes det)
  /\ List.length (confs det) = List.length (boxes det)
  /\ (forall fr sx sy r bx,
        _maybe_resize frame 640 = Ret (fr, sx, sy) -> model fr = Ret r ->
        YOLO.boxes r = Some bx -> YOLO.cls bx <> None -> YOLO.conf bx = None ->
        confs det = repeat 0 (List.length (boxes det))).
Proof.
  intros Hmodel. unfold _detect_labels_and_boxes, bind.
  destruct (_maybe_resize frame 640) as [[[fr sx] sy]|]; [|discriminate].
  destruct (model fr) as [r|] eqn:M; [|discriminate].
  destruct (YOLO.boxes r) as [bx|] eqn:B.
  - destruct (YOLO.cls bx) as [cls|] eqn:C.
    + destruct (label_list (YOLO.names r) cls) as [ls|] eqn:L; [|discriminate].
      intros H. injection H as <- _. cbn [labels boxes confs].
      destruct (Hmodel fr sx sy r bx cls eq_refl M B C) as [Hx Hc].
      rewrite rescale_boxes_length, Hx, (label_list_length _ _ _ L).
      split; [reflexivity|]. split.
      * destruct (YOLO.conf bx) as [cf|]; [now apply Hc | apply repeat_length].
      * intros fr' sx' sy' r' bx' H1 H2 H3 _ H5. injection H1 as <- <- <-.
        rewrite M in H2. injection H2 as <-. rewrite B in H3. injection H3 as <-.
        rewrite H5. reflexivity.
    + intros H. injection H as <- _. cbn. split; [reflexivity|]. split; [reflexivity|].
      intros fr' sx' sy' r' bx' H1 H2 H3 H4 _. injection H1 as <- <- <-.
      rewrite M in H2. injection H2 as <-. rewrite B in H3. injection H3 as <-.
      contradiction.
  - intros H. injection H as <- _. cbn. split; [reflexivity|]. split; [reflexivity|].
    intros fr' sx' sy' r' bx' H1 H2 H3 _ _. injection H1 as <- <- <-.
    rewrite M in H2. injection H2 as <-. rewrite B in H3. discriminate.
Qed.

(** ** Whole sessions *)

Lemma ws_iteration_abort {E : External} (cfg : Config)
    (busy : bool) (w : World) (a : Arrival) (e : exn) (w' : World) :
  ws_iteration cfg busy w a = Abort e w' -> w' = w /\ arrival_raises a = Some e.
Proof.
  unfold ws_iteration, arrival_raises.
  destruct (received a) as [data|e0].
  - destruct (cv2_imdecode data) as [[frame|]|e1].
    + destruct busy; [discriminate|].
      destruct (_detect_labels_and_boxes cfg frame (clock a) (alert w)) as [[det al]|];
        discriminate.
    + discriminate.
    + intros H. injection H as <- <-. split; reflexivity.
  - intros H. injection H as <- <-. split; reflexivity.
Qed.

Lemma ws_iteration_next_iff {E : External} (cfg : Config)
    (busy : bool) (w : World) (a : Arrival) :
  arrival_raises a = None <-> exists b w', ws_iteration cfg busy w a = Next b w'.
Proof.
  unfold ws_iteration, arrival_raises.
  destruct (received a) as [data|e0].
  - destruct (cv2_imdecode data) as [[frame|]|e1].
    + split; [intros _|reflexivity]. destruct busy; [eexists; eexists; reflexivity|].
      destruct (_detect_labels_and_boxes cfg frame (clock a) (alert w)) as [[det al]|];
        eexists; eexists; reflexivity.
    + split; [intros _; eexists; eexists; reflexivity | reflexivity].
    + split; [discriminate | intros (b & w' & H); discriminate].
  - split; [discriminate | intros (b & w' & H); discriminate].
Qed.

(** A pass through the loop body makes no request, or one at the
    configured level together with a result whose verdict is true; it sends
    at most one message. *)
Lemma ws_iteration_requests {E : External} (cfg : Config)
    (busy : bool) (w : World) (a : Arrival) :
  let w' := flow_world (ws_iteration cfg busy w a) in
  exists sent,
    outbox w' = outbox w ++ sent /\ (List.length sent <= 1)%nat
    /\ (esp32_requests (alert w') = esp32_requests (alert w)
        \/ (esp32_requests (alert w')
            = esp32_requests (alert w) ++ [ESP32_ALERT_LEVEL cfg]
            /\ drowsy_replies sent = 1%nat)).
Proof.
  cbv zeta. unfold ws_iteration.
  assert (Nothing : exists sent : list Json,
             outbox w = outbox w ++ sent /\ (List.length sent <= 1)%nat
             /\ (esp32_requests (alert w) = esp32_requests (alert w)
                 \/ (esp32_requests (alert w)
                     = esp32_requests (alert w) ++ [ESP32_ALERT_LEVEL cfg]
                     /\ drowsy_replies sent = 1%nat))).
  { exists []. rewrite app_nil_r. repeat split; [apply le_0_n | now left]. }
  destruct (received a) as [data|e0]; [|exact Nothing].
  destruct (cv2_imdecode data) as [[frame|]|e1]; [| |exact Nothing].
  - destruct busy; [exact Nothing|].
    destruct (_detect_labels_and_boxes cfg frame (clock a) (alert w)) as [[det al]|e] eqn:D;
      cbn [flow_world send_json alert outbox].
    + exists [JDet det]. split; [reflexivity|]. split; [apply le_n|].
      rewrite (detect_alert_state cfg frame (clock a) (alert w) det al D).
      destruct (drowsy det) eqn:Dr; [|now left].
      unfold alert_with_cooldown.
      destruct (Qle_bool (ALERT_COOLDOWN_S cfg) (clock a - _last_alert_ts (alert w)));
        [|now left].
      right. split; [reflexivity|]. unfold drowsy_replies. cbn [filter]. rewrite Dr.
      reflexivity.
    + eexists. split; [reflexivity|]. split; [apply le_n | now left].
  - cbn [flow_world send_json alert outbox].
    eexists. split; [reflexivity|]. split; [apply le_n | now left].
Qed.

Lemma drowsy_replies_app (s1 s2 : list Json) :
  drowsy_replies (s1 ++ s2) = (drowsy_replies s1 + drowsy_replies s2)%nat.
Proof. unfold drowsy_replies. now rewrite filter_app, length_app. Qed.

(** X6: in a session every request to the actuator goes with a result of
    true verdict sent to the client in the same pass: the requests made are
    copies of the configured level, as many as [n], and [n] is at most the
    number of drowsy results sent, itself at most the number of messages
    received.  Requests made earlier are never withdrawn, and a session
    whose results are all not drowsy makes no request. *)
Theorem session_requests_bounded {E : External} (cfg : Config)
    (busy : bool) (w : World) (script : list Arrival) :
  exists (n : nat) (sent : list Json),
    outbox (flow_world (ws_loop cfg busy w script)) = outbox w ++ sent
    /\ esp32_requests (alert (flow_world (ws_loop cfg busy w script)))
       = esp32_requests (alert w) ++ repeat (ESP32_ALERT_LEVEL cfg) n
    /\ (n <= drowsy_replies sent)%nat
    /\ (List.length sent <= List.length script)%nat.
Proof.
  revert busy w. induction script as [|a rest IH]; intros busy w; cbn [ws_loop].
  - exists 0%nat, []. cbn [flow_world repeat]. rewrite !app_nil_r.
    repeat split; apply le_n.
  - pose proof (ws_iteration_requests cfg busy w a) as Hreq. cbv zeta in Hreq.
    destruct Hreq as (s1 & Ho & Hl & Hq).
    assert (Hd1 : (drowsy_replies s1 <= List.length s1)%nat)
      by (unfold drowsy_replies; apply filter_length_le).
    destruct (ws_iteration cfg busy w a) as [b1 w1|e w1]; cbn [flow_world] in Ho, Hq.
    + destruct (IH b1 w1) as (n & s2 & Ho2 & Hr2 & Hn & Hl2).
      destruct Hq as [Hq | [Hq Hd]].
      * exists n, (s1 ++ s2). rewrite Ho2, Ho, Hr2, Hq, drowsy_replies_app, length_app,
          <- app_assoc. cbn [List.length]. repeat split; lia.
      * exists (S n), (s1 ++ s2). rewrite Ho2, Ho, Hr2, Hq, drowsy_replies_app, length_app,
          <- !app_assoc. cbn [List.length repeat app]. repeat split; lia.
    + cbn [flow_world]. destruct Hq as [Hq | [Hq Hd]].
      * exists 0%nat, s1. cbn [repeat List.length]. rewrite app_nil_r.
        repeat split; try assumption; lia.
      * exists 1%nat, s1. cbn [repeat List.length]. repeat split; try assumption; lia.
Qed.

(** X7: a session that runs alone.  When no other session and no upload
    request is handled while the session runs, so that the alert state
    changes through the passes of this session only, the timestamp of the
    last alert never goes back through the whole session, however it ends,
    when the cooldown is not negative, whatever the clock readings are.
    Nothing is said of a session that shares the alert state with threads
    running at the same time: two threads in the alert block at once can
    lower the timestamp. *)
Theorem session_alert_timestamp_monotone {E : External} (cfg : Config)
    (busy : bool) (w : World) (script : list Arrival) :
  0 <= ALERT_COOLDOWN_S cfg ->
  _last_alert_ts (alert w)
  <= _last_alert_ts (alert (flow_world (ws_loop cfg busy w script))).
Proof.
  intros Hc. revert busy w.
  induction script as [|a rest IH]; intros busy w; cbn [ws_loop].
  - apply Qle_refl.
  - destruct (ws_iteration cfg busy w a) as [b1 w1|e w1] eqn:It.
    + apply Qle_trans with (_last_alert_ts (alert w1)).
      * exact (ws_iteration_alert_monotone cfg busy w a b1 w1 Hc It).
      * apply IH.
    + destruct (ws_iteration_abort cfg busy w a e w1 It) as [-> _].
      apply Qle_refl.
Qed.

(** A clock that runs backwards and a drowsy frame at every message, in the
    sample environment. *)
Lemma session_alert_timestamp_monotone_witness :
  let script :=
    [Sample.arrival (Sample.message 480 640 [x01]) 1700000010;
     Sample.arrival (Sample.message 480 640 [x01]) 1700000000;
     Sample.arrival (Sample.message 480 640 [x01]) 1700000013] in
  0 <=
  _last_alert_ts
    (alert (flow_world (@ws_loop Sample.env default_config false Sample.world0 script))).
Proof.
  cbv zeta.
  refine (@session_alert_timestamp_monotone Sample.env default_config false
            Sample.world0 _ _).
  discriminate.
Defined.

(** What [_detect_labels_and_boxes] returns besides the alert state does not
    depend on the configuration, the clock or the alert state. *)
Lemma detect_result_independent {E : External} (cfg1 cfg2 : Config)
    (frame : Frame Pixels) (now1 now2 : Q) (a1 a2 : AlertState) :
  match _detect_labels_and_boxes cfg1 frame now1 a1,
        _detect_labels_and_boxes cfg2 frame now2 a2 with
  | Ret (d1, _), Ret (d2, _) => d1 = d2
  | Raise e1, Raise e2 => e1 = e2
  | _, _ => False
  end.
Proof.
  unfold _detect_labels_and_boxes, bind.
  destruct (_maybe_resize frame 640) as [[[fr sx] sy]|]; [|reflexivity].
  destruct (model fr) as [r|]; [|reflexivity].
  destruct (YOLO.boxes r) as [bx|]; [|reflexivity].
  destruct (YOLO.cls bx) as [cls|]; [|reflexivity].
  destruct (label_list (YOLO.names r) cls) as [ls|]; reflexivity.
Qed.

Lemma ws_iteration_replies_independent {E : External} (cfg1 cfg2 : Config)
    (busy : bool) (w1 w2 : World) (a1 a2 : Arrival) :
  outbox w1 = outbox w2 -> received a1 = received a2 ->
  outbox (flow_world (ws_iteration cfg1 busy w1 a1))
  = outbox (flow_world (ws_iteration cfg2 busy w2 a2))
  /\ flow_exit (ws_iteration cfg1 busy w1 a1) = flow_exit (ws_iteration cfg2 busy w2 a2).
Proof.
  intros Ho Hr. unfold ws_iteration. rewrite Hr.
  destruct (received a2) as [data|e0]; [|split; [exact Ho | reflexivity]].
  destruct (cv2_imdecode data) as [[frame|]|e1].
  - destruct busy; [split; [exact Ho | reflexivity]|].
    pose proof (detect_result_independent cfg1 cfg2 frame (clock a1) (clock a2)
                  (alert w1) (alert w2)) as Hd.
    destruct (_detect_labels_and_boxes cfg1 frame (clock a1) (alert w1)) as [[d1 al1]|e1];
      destruct (_detect_labels_and_boxes cfg2 frame (clock a2) (alert w2)) as [[d2 al2]|e2];
      try contradiction; subst; cbn [flow_world flow_exit send_json outbox];
      rewrite Ho; split; reflexivity.
  - cbn [flow_world flow_exit send_json outbox]. rewrite Ho. split; reflexivity.
  - split; [exact Ho | reflexivity].
Qed.

(** X8: what a session sends to its client, and how its loop ends, depend on
    the bytes received only: not on the clock, not on the alert state of the
    process, not on the alert configuration.  Alerts are a side effect the
    client does not observe. *)
Theorem session_replies_independent_of_alerts {E : External} (cfg1 cfg2 : Config)
    (busy : bool) (w1 w2 : World) (s1 s2 : list Arrival) :
  outbox w1 = outbox w2 ->
  map received s1 = map received s2 ->
  outbox (flow_world (ws_loop cfg1 busy w1 s1))
  = outbox (flow_world (ws_loop cfg2 busy w2 s2))
  /\ flow_exit (ws_loop cfg1 busy w1 s1) = flow_exit (ws_loop cfg2 busy w2 s2).
Proof.
  revert busy w1 w2 s2.
  induction s1 as [|a1 r1 IH]; intros busy w1 w2 s2 Ho Hm;
    destruct s2 as [|a2 r2]; try discriminate; cbn [ws_loop].
  - split; [exact Ho | reflexivity].
  - cbn [map] in Hm. injection Hm as Ha Hrest.
    destruct (ws_iteration_replies_independent cfg1 cfg2 busy w1 w2 a1 a2 Ho Ha)
      as [Hout Hexit].
    destruct (ws_iteration cfg1 busy w1 a1) as [b1 v1|e1 v1];
      destruct (ws_iteration cfg2 busy w2 a2) as [b2 v2|e2 v2];
      cbn [flow_world flow_exit] in Hout, Hexit; try discriminate.
    + injection Hexit as <-. exact (IH b1 v1 v2 r2 Hout Hrest).
    + injection Hexit as <-. split; [exact Hout | reflexivity].
Qed.

(** The same three frames at other times, with another alert state and
    another configuration. *)
Lemma session_replies_independent_of_alerts_witness :
  let frames := [Sample.message 480 640 [x01]; [x00]; Sample.message 480 640 [x03]] in
  let later := {| alert := {| _last_alert_ts := 1700000000;
                              esp32_requests := ["warn"%string] |};
                  outbox := [] |} in
  outbox (flow_world
            (@ws_loop Sample.env default_config false Sample.world0
               (map (fun d => Sample.arrival d 1700000000) frames)))
  = outbox (flow_world
              (@ws_loop Sample.env {| ESP32_ALERT_LEVEL := "warn"; ALERT_COOLDOWN_S := 60 |}
                 false later
                 (map (fun d => Sample.arrival d 1700000001) frames))).
Proof.
  cbv zeta.
  refine (proj1 (@session_replies_independent_of_alerts Sample.env _ _ false _ _ _ _ _ _));
    reflexivity.
Defined.

Lemma ws_loop_all_received {E : External} (cfg : Config) (script : list Arrival) :
  forall (busy : bool) (w : World),
    Forall (fun a => arrival_raises a = None) script ->
    exists b w', ws_loop cfg busy w script = Next b w'.
Proof.
  induction script as [|a rest IH]; intros busy w Hall; cbn [ws_loop].
  - eexists; eexists; reflexivity.
  - inversion Hall as [|a0 r0 Ha Hrest]; subst.
    destruct (proj1 (ws_iteration_next_iff cfg busy w a) Ha) as (b1 & w1 & ->).
    apply IH. exact Hrest.
Qed.

(** X9: a session handles exactly the messages before the first one on
    which the receive or the decoder raises.  When none does, [ws_infer] is
    still receiving and has sent one message per message received.  At the
    first that does, [ws_infer] returns: it has sent one message for each
    message before it, and one more with the text of the exception unless
    the exception is the disconnect; the messages after it are never looked
    at. *)
Theorem session_ends_at_first_exception {E : External} (cfg : Config)
    (w : World) (script : list Arrival) :
  (Forall (fun a => arrival_raises a = None) script ->
   exists w', ws_infer cfg w script = Ret (Receiving w')
              /\ List.length (outbox w')
                 = (List.length (outbox w) + List.length script)%nat)
  /\ (forall pre a rest e,
        script = pre ++ a :: rest ->
        Forall (fun a => arrival_raises a = None) pre ->
        arrival_raises a = Some e ->
        exists w',
          ws_infer cfg w script = Ret (Returned w')
          /\ ws_infer cfg w (pre ++ [a]) = Ret (Returned w')
          /\ List.length (outbox w')
             = (List.length (outbox w) + List.length pre
                + match e with WebSocketDisconnect => 0 | Exception _ => 1 end)%nat).
Proof.
  split.
  - intros Hall. destruct (ws_loop_all_received cfg script false w Hall) as (b & w' & Hl).
    exists w'. unfold ws_infer. rewrite Hl. split; [reflexivity|].
    destruct (ws_loop_invariant cfg script w b w' Hl) as [_ (sent & -> & <-)].
    apply length_app.
  - intros pre a rest e -> Hpre Ha.
    destruct (ws_loop_all_received cfg pre false w Hpre) as (b & w1 & Hl).
    destruct (ws_loop_invariant cfg pre w b w1 Hl) as [-> (sent & Hsent & Hlen)].
    assert (Hi : ws_iteration cfg false w1 a = Abort e w1).
    { destruct (ws_iteration cfg false w1 a) as [b2 w2|e2 w2] eqn:It.
      - assert (Hn : arrival_raises a = None)
          by (apply (ws_iteration_next_iff cfg false w1 a); eauto).
        rewrite Hn in Ha. discriminate.
      - destruct (ws_iteration_abort cfg false w1 a e2 w2 It) as [-> He2].
        rewrite He2 in Ha. injection Ha as ->. reflexivity. }
    assert (Hboth : forall tail, ws_loop cfg false w (pre ++ a :: tail) = Abort e w1).
    { intros tail. rewrite ws_loop_app, Hl. cbn [ws_loop]. rewrite Hi. reflexivity. }
    exists (match e with
            | WebSocketDisconnect => w1
            | Exception msg => send_json (JError msg) w1
            end).
    unfold ws_infer. rewrite (Hboth rest), (Hboth []).
    destruct e as [|msg]; (split; [reflexivity | split; [reflexivity|]]).
    + rewrite Hsent, length_app, Hlen. lia.
    + cbn [send_json outbox]. rewrite Hsent, !length_app, Hlen. cbn [List.length]. lia.
Qed.

(** ** [DrowsinessDetector]: runs of [detect] *)

Lemma scan_box_verdict (thr : Q) (bxs : list Detector.box) : forall acc,
  fst (fold_left (Detector.scan_box thr) bxs acc) = true <->
  fst acc = true \/
  exists c p, In (c, p) bxs /\ (c = 1 \/ c = 2 \/ c = 3)%Z /\ thr < p.
Proof.
  induction bxs as [|[c p] rest IH]; intros [v m]; cbn [fold_left fst].
  - split; [now left | intros [H | (c & p & [] & _)]; exact H].
  - rewrite IH. unfold Detector.scan_box.
    destruct (((c =? 1) || (c =? 2) || (c =? 3))%Z && Qlt_bool thr p) eqn:T.
    + cbn [fst]. split; [intros _|now left]. right. exists c, p.
      apply andb_true_iff in T. destruct T as [Tc Tp].
      split; [now left|]. split.
      * rewrite !orb_true_iff, !Z.eqb_eq in Tc. tauto.
      * unfold Qlt_bool in Tp. apply negb_true_iff in Tp.
        apply Qnot_le_lt. intros Hle. apply Qle_bool_iff in Hle. congruence.
    + assert (Hno : ~ ((c = 1 \/ c = 2 \/ c = 3)%Z /\ thr < p)).
      { intros [Hc Hp]. apply andb_false_iff in T. destruct T as [T | T].
        - rewrite !orb_false_iff, !Z.eqb_neq in T. lia.
        - unfold Qlt_bool in T. apply negb_false_iff in T.
          apply Qle_bool_iff in T. apply (Qlt_not_le _ _ Hp T). }
      assert (Hfst : forall x y : bool * Q,
                 fst (if (c =? 0)%Z then x else y) = (if (c =? 0)%Z then fst x else fst y))
        by (intros; destruct (c =? 0)%Z; reflexivity).
      rewrite Hfst. cbn [fst]. replace (if (c =? 0)%Z then v else v) with v
        by (destruct (c =? 0)%Z; reflexivity).
      split.
      * intros [H | (c' & p' & Hin & Hc & Hp)]; [now left|].
        right. exists c', p'. split; [now right | tauto].
      * intros [H | (c' & p' & [Heq | Hin] & Hc & Hp)]; [now left | |].
        -- injection Heq as <- <-. exfalso. apply Hno. tauto.
        -- right. exists c', p'. tauto.
Qed.

Lemma py_max_cases (a b : Q) :
  (Detector.py_max a b = a /\ b <= a) \/ (Detector.py_max a b = b /\ a < b).
Proof.
  unfold Detector.py_max, Qlt_bool.
  destruct (Qle_bool b a) eqn:C; cbn [negb].
  - left. split; [reflexivity | now apply Qle_bool_iff].
  - right. split; [reflexivity|]. apply Qnot_le_lt. intros H.
    apply Qle_bool_iff in H. congruence.
Qed.

Lemma scan_box_max (thr : Q) (bxs : list Detector.box) : forall acc,
  let m := snd (fold_left (Detector.scan_box thr) bxs acc) in
  snd acc <= m
  /\ (forall c p, In (c, p) bxs -> counted_box thr (c, p) = true -> p <= m)
  /\ (m = snd acc \/ exists c p, In (c, p) bxs /\ counted_box thr (c, p) = true /\ m = p).
Proof.
  induction bxs as [|[c p] rest IH]; intros [v m0]; cbv zeta; cbn [fold_left snd].
  - split; [apply Qle_refl|]. split; [intros c p []|now left].
  - set (acc1 := Detector.scan_box thr (v, m0) (c, p)).
    destruct (IH acc1) as (I1 & I2 & I3). cbv zeta in I1, I2, I3.
    set (m := snd (fold_left (Detector.scan_box thr) rest acc1)) in *.
    assert (Hstep : (counted_box thr (c, p) = true
                     /\ snd acc1 = Detector.py_max m0 p)
                    \/ (counted_box thr (c, p) = false /\ snd acc1 = m0)).
    { unfold acc1, Detector.scan_box, counted_box.
      destruct (((c =? 1) || (c =? 2) || (c =? 3))%Z && Qlt_bool thr p);
        [left; split; reflexivity|].
      destruct (c =? 0)%Z; [left | right]; split; reflexivity. }
    destruct Hstep as [[Hc Hs] | [Hc Hs]]; rewrite Hs in I1, I3.
    + destruct (py_max_cases m0 p) as [[Hm Hle] | [Hm Hlt]]; rewrite Hm in I1, I3.
      * split; [exact I1|]. split.
        -- intros c' p' [Heq | Hin] Hcnt; [injection Heq as <- <-; lra | now apply (I2 c' p')].
        -- destruct I3 as [-> | (c' & p' & Hin & Hcnt & ->)]; [now left|].
           right. exists c', p'. split; [now right | split; [exact Hcnt | reflexivity]].
      * split; [lra|]. split.
        -- intros c' p' [Heq | Hin] Hcnt; [injection Heq as <- <-; exact I1 | now apply (I2 c' p')].
        -- right. destruct I3 as [-> | (c' & p' & Hin & Hcnt & ->)].
           ++ exists c, p. split; [now left | split; [exact Hc | reflexivity]].
           ++ exists c', p'. split; [now right | split; [exact Hcnt | reflexivity]].
    + split; [exact I1|]. split.
      * intros c' p' [Heq | Hin] Hcnt; [|now apply (I2 c' p')].
        injection Heq as <- <-. rewrite Hc in Hcnt. discriminate.
      * destruct I3 as [-> | (c' & p' & Hin & Hcnt & ->)]; [now left|].
        right. exists c', p'. split; [now right | split; [exact Hcnt | reflexivity]].
Qed.

(** X10: what [detect] reads off the boxes of a frame.  The frame verdict is
    true exactly when some box has class 1, 2 or 3 with a confidence above
    the threshold.  The confidence reported is 0.0 or the confidence of a
    counted box (class 0, or class 1, 2 or 3 above the threshold), and no
    counted box has a larger one; boxes of other classes, and drowsiness
    boxes at or below the threshold, are left out of both. *)
Theorem detect_reads_boxes (thr : Q) (bxs : list Detector.box) :
  let acc := fold_left (Detector.scan_box thr) bxs (false, 0) in
  (fst acc = true <->
   exists c p, In (c, p) bxs /\ (c = 1 \/ c = 2 \/ c = 3)%Z /\ thr < p)
  /\ 0 <= snd acc
  /\ (forall c p, In (c, p) bxs -> counted_box thr (c, p) = true -> p <= snd acc)
  /\ (snd acc = 0
      \/ exists c p, In (c, p) bxs /\ counted_box thr (c, p) = true /\ snd acc = p).
Proof.
  cbv zeta. split.
  - rewrite scan_box_verdict. cbn [fst]. split; [intros [H | H]; [discriminate | exact H] | now right].
  - exact (scan_box_max thr bxs (false, 0)).
Qed.

Lemma detect_fields (d : Detector.DrowsinessDetector) (r : Call) :
  let d' := fst (Detector.detect d (fst r) (snd r)) in
  Detector.drowsiness_threshold d' = Detector.drowsiness_threshold d
  /\ Detector.alert_threshold d' = Detector.alert_threshold d
  /\ Detector.buffer_size d' = Detector.buffer_size d.
Proof.
  cbv zeta. destruct r as [[bxs|e] [u|e']]; cbn [fst snd]; [| |repeat split ..].
  - rewrite detect_pushes_frame_verdict. cbn [fst]. unfold Detector.push. cbn.
    repeat split.
  - rewrite detect_overlay_raises. cbn. repeat split.
Qed.

Lemma detect_all_cons (d : Detector.DrowsinessDetector) (r : Call) (rest : list Call) :
  detect_all d (r :: rest)
  = (fst (detect_all (fst (Detector.detect d (fst r) (snd r))) rest),
     snd (Detector.detect d (fst r) (snd r))
       :: snd (detect_all (fst (Detector.detect d (fst r) (snd r))) rest)).
Proof.
  cbn [detect_all]. destruct (Detector.detect d (fst r) (snd r)) as [d1 out]. cbn [fst snd].
  destruct (detect_all d1 rest) as [d2 outs]. reflexivity.
Qed.

Lemma pushed_verdicts_length (thr1 thr2 : Q) (frames : list Call) :
  List.length (pushed_verdicts thr1 frames) = List.length (pushed_verdicts thr2 frames).
Proof.
  induction frames as [|[[b|e] o] rest IH]; cbn [pushed_verdicts List.length];
    [reflexivity | now rewrite IH | exact IH].
Qed.

Lemma completed_le_pushed (thr : Q) (frames : list Call) :
  (completed frames <= List.length (pushed_verdicts thr frames))%nat.
Proof.
  induction frames as [|[[b|e] [u|e']] rest IH];
    cbn [completed pushed_verdicts List.length]; lia.
Qed.

(** The buffer of one call that got as far as the append. *)
Lemma detect_buffer (d : Detector.DrowsinessDetector) (bxs : list Detector.box)
    (o : outcome unit) :
  Detector.frame_buffer (fst (Detector.detect d (Ret bxs) o))
  = Detector.buffer_append (Detector.buffer_size d) (Detector.frame_buffer d)
      (frame_verdict (Detector.drowsiness_threshold d) bxs).
Proof.
  destruct o as [u|e].
  - rewrite detect_pushes_frame_verdict. reflexivity.
  - rewrite detect_overlay_raises. reflexivity.
Qed.

(** The buffer, the thresholds and the capacity after a run. *)
Lemma detect_all_buffer (frames : list Call) :
  forall d : Detector.DrowsinessDetector,
    Detector.buffer_size d = 5%Z ->
    (List.length (Detector.frame_buffer d) <= 5)%nat ->
    let d' := fst (detect_all d frames) in
    let vs := pushed_verdicts (Detector.drowsiness_threshold d) frames in
    Detector.frame_buffer d' = lastn 5 (Detector.frame_buffer d ++ vs)
    /\ (List.length (Detector.frame_buffer d') <= 5)%nat
    /\ Detector.drowsiness_threshold d' = Detector.drowsiness_threshold d
    /\ Detector.alert_threshold d' = Detector.alert_threshold d
    /\ Detector.buffer_size d' = 5%Z.
Proof.
  induction frames as [|r rest IH]; intros d Hsize Hlen; cbv zeta.
  - cbn [detect_all fst pushed_verdicts]. rewrite app_nil_r.
    split.
    { unfold lastn. replace (List.length (Detector.frame_buffer d) - 5)%nat with 0%nat by lia.
      reflexivity. }
    repeat split; assumption.
  - rewrite detect_all_cons. cbn [fst].
    destruct (detect_fields d r) as (F1 & F2 & F3). cbv zeta in F1, F2, F3.
    destruct r as [[bxs|e] o]; cbn [fst snd] in *.
    + set (d1 := fst (Detector.detect d (Ret bxs) o)) in *.
      assert (Hsize1 : Detector.buffer_size d1 = 5%Z) by congruence.
      set (v := frame_verdict (Detector.drowsiness_threshold d) bxs).
      assert (Hbuf1 : Detector.frame_buffer d1 = lastn 5 (Detector.frame_buffer d ++ [v])).
      { unfold d1. rewrite detect_buffer, Hsize.
        exact (buffer_append_lastn 5 _ v Hlen). }
      assert (Hlen1 : (List.length (Detector.frame_buffer d1) <= 5)%nat)
        by (rewrite Hbuf1; apply lastn_length).
      destruct (IH d1 Hsize1 Hlen1) as (I1 & I2 & I3 & I4 & I5).
      cbv zeta in I1, I2, I3, I4, I5. rewrite F1 in I1.
      cbn [pushed_verdicts]. fold v. split.
      { rewrite I1, Hbuf1, lastn_app_lastn, <- app_assoc. reflexivity. }
      repeat split; try assumption; congruence.
    + cbn [Detector.detect fst].
      destruct (IH d Hsize Hlen) as (I1 & I2 & I3 & I4 & I5).
      cbv zeta in I1, I2, I3, I4, I5. cbn [pushed_verdicts].
      repeat split; assumption.
Qed.

(** X11: what a run of [detect] calls keeps.  From a detector whose buffer
    respects the capacity 5, after any frames: the buffer holds the last
    five of its entries followed by the verdicts of the frames whose boxes
    were read, those on which the overlay then raised included, so never
    more than five; [total_frames] has grown by the number of frames on
    which nothing raised, which may be fewer than the verdicts pushed, and
    [drowsy_frames] by at most that; the thresholds and the capacity are as
    before; and every call has returned a result.  A frame on which
    [detect] gives up before the append changes nothing; one on which it
    gives up after changes the buffer and nothing else. *)
Theorem detect_run_invariants (frames : list Call) (d : Detector.DrowsinessDetector) :
  Detector.buffer_size d = 5%Z ->
  (List.length (Detector.frame_buffer d) <= 5)%nat ->
  let d' := fst (detect_all d frames) in
  let vs := pushed_verdicts (Detector.drowsiness_threshold d) frames in
  Detector.frame_buffer d' = lastn 5 (Detector.frame_buffer d ++ vs)
  /\ (List.length (Detector.frame_buffer d') <= 5)%nat
  /\ Detector.total_frames d' = (Detector.total_frames d + Z.of_nat (completed frames))%Z
  /\ (Detector.drowsy_frames d <= Detector.drowsy_frames d'
      <= Detector.drowsy_frames d + Z.of_nat (completed frames))%Z
  /\ (completed frames <= List.length vs)%nat
  /\ Detector.drowsiness_threshold d' = Detector.drowsiness_threshold d
  /\ Detector.alert_threshold d' = Detector.alert_threshold d
  /\ Detector.buffer_size d' = 5%Z
  /\ List.length (snd (detect_all d frames)) = List.length frames
  /\ (forall e o, fst (Detector.detect d (Raise e) o) = d)
  /\ (forall bxs e,
         let d1 := fst (Detector.detect d (Ret bxs) (Raise e)) in
         Detector.frame_buffer d1
         = lastn 5 (Detector.frame_buffer d
                      ++ [frame_verdict (Detector.drowsiness_threshold d) bxs])
         /\ Detector.total_frames d1 = Detector.total_frames d
         /\ Detector.drowsy_frames d1 = Detector.drowsy_frames d
         /\ snd (Detector.detect d (Ret bxs) (Raise e)) = (false, 0)).
Proof.
  intros Hsize Hlen. cbv zeta.
  destruct (detect_all_buffer frames d Hsize Hlen) as (B1 & B2 & B3 & B4 & B5).
  cbv zeta in B1, B2, B3, B4, B5.
  assert (Counts : forall (fs : list Call) (d0 : Detector.DrowsinessDetector),
             let n := Z.of_nat (completed fs) in
             Detector.total_frames (fst (detect_all d0 fs))
             = (Detector.total_frames d0 + n)%Z
             /\ (Detector.drowsy_frames d0
                 <= Detector.drowsy_frames (fst (detect_all d0 fs))
                 <= Detector.drowsy_frames d0 + n)%Z
             /\ List.length (snd (detect_all d0 fs)) = List.length fs).
  { clear. induction fs as [|r rest IH]; intros d0; cbv zeta.
    - cbn [detect_all fst snd completed List.length]. repeat split; lia.
    - rewrite detect_all_cons. cbn [fst snd List.length].
      destruct (IH (fst (Detector.detect d0 (fst r) (snd r)))) as (I1 & I2 & I3).
      cbv zeta in I1, I2, I3.
      destruct r as [[bxs|e] [u|e']]; cbn [fst snd completed] in *.
      + rewrite detect_pushes_frame_verdict in *. cbn [fst] in *.
        unfold Detector.push in *. cbn [fst Detector.total_frames Detector.drowsy_frames] in *.
        destruct (Detector.smoothed _ _); repeat split; lia.
      + rewrite detect_overlay_raises in *.
        cbn [fst Detector.total_frames Detector.drowsy_frames] in *.
        repeat split; lia.
      + cbn [Detector.detect fst] in *. repeat split; lia.
      + cbn [Detector.detect fst] in *. repeat split; lia. }
  destruct (Counts frames d) as (C1 & C2 & C3). cbv zeta in C1, C2, C3.
  pose proof (completed_le_pushed (Detector.drowsiness_threshold d) frames) as Hc.
  do 9 (split; [first [assumption | lia]|]).
  split; [intros e o; reflexivity|].
  intros bxs e. cbv zeta. rewrite detect_buffer, Hsize.
  split; [exact (buffer_append_lastn 5 _ _ Hlen)|].
  rewrite detect_overlay_raises. repeat split.
Qed.

(** A fresh detector, four frames: a drowsy box, a frame on which the model
    raises, a drowsy box on a frame whose overlay raises, a box below the
    threshold.  Three verdicts are in the buffer and two frames are
    counted. *)
Lemma detect_run_invariants_witness :
  let frames : list Call :=
    [processed [(1%Z, 9 # 10)];
     (Raise (Exception "model"), Ret tt);
     (Ret [(3%Z, 9 # 10)], Raise (Exception "cv2.error"));
     processed [(2%Z, 3 # 10)]] in
  Detector.frame_buffer (fst (detect_all Detector.init frames)) = [true; true; false]
  /\ Detector.total_frames (fst (detect_all Detector.init frames)) = 2%Z.
Proof.
  cbv zeta.
  destruct (detect_run_invariants
              [processed [(1%Z, 9 # 10)];
               (Raise (Exception "model"), Ret tt);
               (Ret [(3%Z, 9 # 10)], Raise (Exception "cv2.error"));
               processed [(2%Z, 3 # 10)]]
              Detector.init eq_refl (le_0_n 5))
    as (Hb & _ & Ht & _).
  cbv zeta in Hb, Ht. split; [exact Hb | exact Ht].
Defined.

Lemma detect_all_app (f1 f2 : list Call) :
  forall d : Detector.DrowsinessDetector,
    detect_all d (f1 ++ f2)
    = (fst (detect_all (fst (detect_all d f1)) f2),
       snd (detect_all d f1) ++ snd (detect_all (fst (detect_all d f1)) f2)).
Proof.
  induction f1 as [|r rest IH]; intros d.
  - cbn [app detect_all fst snd]. now destruct (detect_all d f2).
  - cbn [app]. rewrite !detect_all_cons, IH. cbn [fst snd]. reflexivity.
Qed.

(** X12: the debounce of [detect] over any run.  On a detector that starts
    with an empty buffer of capacity 5, the smoothed verdict returned for a
    frame on which nothing raises is true exactly when at least three of the
    last five verdicts in the buffer, this one included, are true; the
    verdicts in the buffer are those of the frames whose boxes were read,
    the frames on which the overlay raised included.  So fewer than three
    such drowsy frames never raise it, whatever came before the start. *)
Theorem smoothed_verdict_of_run (d : Detector.DrowsinessDetector)
    (before : list Call) (bxs : list Detector.box) :
  Detector.buffer_size d = 5%Z ->
  Detector.frame_buffer d = [] ->
  let thr := Detector.drowsiness_threshold d in
  let outs := snd (detect_all d (before ++ [processed bxs])) in
  let window := lastn 5 (pushed_verdicts thr (before ++ [processed bxs])) in
  last (map fst outs) false = (3 <=? Detector.py_sum window)%Z
  /\ ((count_true (pushed_verdicts thr (before ++ [processed bxs])) < 3)%nat ->
      last (map fst outs) false = false).
Proof.
  intros Hsize Hbuf. cbv zeta.
  assert (Hlen : (List.length (Detector.frame_buffer d) <= 5)%nat)
    by (rewrite Hbuf; apply le_0_n).
  destruct (detect_all_buffer before d Hsize Hlen) as (B1 & B2 & T1 & _ & S1).
  cbv zeta in B1, B2, T1, S1. rewrite Hbuf in B1. cbn [app] in B1.
  set (d1 := fst (detect_all d before)) in *.
  set (thr := Detector.drowsiness_threshold d) in *.
  assert (Hvs : pushed_verdicts thr (before ++ [processed bxs])
                = pushed_verdicts thr before ++ [frame_verdict thr bxs]).
  { clear. induction before as [|[[b|e] o] rest IH]; cbn [app pushed_verdicts];
      [reflexivity | now rewrite IH | exact IH]. }
  assert (Hout : last (map fst (snd (detect_all d (before ++ [processed bxs])))) false
                 = Detector.smoothed 5
                     (lastn 5 (pushed_verdicts thr (before ++ [processed bxs])))).
  { rewrite detect_all_app. cbn [snd]. fold d1.
    unfold processed. cbn [detect_all fst snd].
    rewrite detect_pushes_frame_verdict. cbn [fst snd].
    rewrite map_app. cbn [map fst]. rewrite last_last.
    rewrite T1. unfold Detector.push. cbn [snd]. rewrite S1.
    rewrite (buffer_append_lastn 5 _ _ B2), B1, lastn_app_lastn.
    fold (processed bxs). rewrite Hvs. reflexivity. }
  rewrite Hout, smoothed_five. split; [reflexivity|].
  intros Hcount. apply Z.leb_gt.
  set (vs := pushed_verdicts thr (before ++ [processed bxs])) in *.
  assert (Hsum : forall l, Detector.py_sum l = Z.of_nat (count_true l)).
  { clear. unfold count_true. induction l as [|b l IH]; [reflexivity|].
    cbn [Detector.py_sum filter]. destruct b; cbn [List.length]; rewrite IH; lia. }
  assert (Hskip : forall (k : nat) (l : list bool),
             (count_true (skipn k l) <= count_true l)%nat).
  { clear. intros k. induction k as [|k IH]; intros l; [apply le_n|].
    destruct l as [|b l]; [apply le_n|]. cbn [skipn].
    specialize (IH l). unfold count_true in *. cbn [filter].
    destruct b; cbn [List.length]; lia. }
  rewrite Hsum. unfold lastn. specialize (Hskip (List.length vs - 5)%nat vs). lia.
Qed.

(** A demonstration of X12 on a fresh detector.  Two drowsy frames are not
    enough; and after two drowsy frames on which the overlay raised, the
    first frame on which nothing raises returns a true smoothed verdict. *)
Lemma smoothed_verdict_of_run_witness :
  last (map fst (snd (detect_all Detector.init
                        ([processed [(1%Z, 9 # 10)]] ++ [processed [(3%Z, 8 # 10)]]))))
    false
  = false
  /\ last (map fst (snd (detect_all Detector.init
                           ([(Ret [(1%Z, 9 # 10)], Raise (Exception "cv2.error"));
                             (Ret [(1%Z, 9 # 10)], Raise (Exception "cv2.error"))]
                            ++ [processed [(3%Z, 8 # 10)]]))))
       false
     = true.
Proof.
  split.
  - refine (proj2 (smoothed_verdict_of_run Detector.init [processed [(1%Z, 9 # 10)]]
                     [(3%Z, 8 # 10)] eq_refl eq_refl) _).
    cbv. repeat constructor.
  - exact (proj1 (smoothed_verdict_of_run Detector.init
                    [(Ret [(1%Z, 9 # 10)], Raise (Exception "cv2.error"));
                     (Ret [(1%Z, 9 # 10)], Raise (Exception "cv2.error"))]
                    [(3%Z, 8 # 10)] eq_refl eq_refl)).
Defined.

(** X13: the smallest capacities.  With a buffer of capacity 1 the smoothed
    verdict is the verdict of the frame just pushed: there is no debounce.
    With capacity 0 the buffer stays empty and the smoothed verdict is true
    at every frame. *)
Theorem smoothing_at_small_capacities (d : Detector.DrowsinessDetector) (v : bool) :
  (Detector.buffer_size d = 1%Z ->
   (List.length (Detector.frame_buffer d) <= 1)%nat ->
   snd (Detector.push d v) = v
   /\ Detector.frame_buffer (fst (Detector.push d v)) = [v])
  /\ (Detector.buffer_size d = 0%Z ->
      Detector.frame_buffer d = [] ->
      snd (Detector.push d v) = true
      /\ Detector.frame_buffer (fst (Detector.push d v)) = []).
Proof.
  split.
  - intros Hsize Hlen. unfold Detector.push. cbn [fst snd Detector.frame_buffer].
    rewrite Hsize. change 1%Z with (Z.of_nat 1).
    rewrite (buffer_append_lastn 1 _ v Hlen).
    assert (Hb : lastn 1 (Detector.frame_buffer d ++ [v]) = [v])
      by (change 1%nat with (List.length [v]); apply lastn_app_exact).
    rewrite Hb. split; [|reflexivity]. destruct v; reflexivity.
  - intros Hsize Hbuf. unfold Detector.push. cbn [fst snd Detector.frame_buffer].
    rewrite Hsize, Hbuf. split; reflexivity.
Qed.

Lemma smoothing_at_small_capacities_witness :
  let d := {| Detector.drowsiness_threshold := 1 # 2;
              Detector.alert_threshold := 7 # 10;
              Detector.frame_buffer := [true];
              Detector.buffer_size := 1;
              Detector.total_frames := 1;
              Detector.drowsy_frames := 1 |} in
  snd (Detector.push d false) = false.
Proof.
  cbv zeta.
  refine (proj1 (proj1 (smoothing_at_small_capacities
                          {| Detector.drowsiness_threshold := 1 # 2;
                             Detector.alert_threshold := 7 # 10;
                             Detector.frame_buffer := [true];
                             Detector.buffer_size := 1;
                             Detector.total_frames := 1;
                             Detector.drowsy_frames := 1 |} false) eq_refl _)).
  apply le_n.
Defined.

(** X14: [reset_statistics] forgets every frame.  After any run of [detect]
    calls it leaves the detector that it leaves before the run, and on a
    detector constructed by [__init__] that is the constructed detector:
    [detect] never touches the thresholds or the capacity. *)
Theorem reset_forgets_run (d : Detector.DrowsinessDetector) (frames : list Call) :
  reset_statistics (fst (detect_all d frames)) = reset_statistics d
  /\ reset_statistics (fst (detect_all Detector.init frames)) = Detector.init.
Proof.
  assert (H : forall d0, reset_statistics (fst (detect_all d0 frames)) = reset_statistics d0).
  { induction frames as [|r rest IH]; intros d0; [reflexivity|].
    rewrite detect_all_cons. cbn [fst]. rewrite IH.
    destruct (detect_fields d0 r) as (F1 & F2 & F3). cbv zeta in F1, F2, F3.
    unfold reset_statistics. now rewrite F1, F2, F3. }
  split; [apply H | rewrite H; reflexivity].
Qed.

(** X15: the two copies of the resize agree.  [preprocess_frame] asks its
    resampler for the size [_maybe_resize] asks for, so the image it returns
    has the width and height of the one [_maybe_resize] returns; given the
    resampler of the pipeline it returns that very image. *)
Theorem preprocess_agrees_with_pipeline_resize {E : External}
    (resize : Frame Pixels -> Z * Z -> outcome (Frame Pixels))
    (frame fr fr' : Frame Pixels) (sx sy : Q) :
  (forall f new_w new_h r,
      resize f (new_w, new_h) = Ret r -> width r = new_w /\ height r = new_h) ->
  _maybe_resize frame 640 = Ret (fr, sx, sy) ->
  preprocess_frame resize (Some frame) = Ret (Some fr') ->
  (width fr' = width fr /\ height fr' = height fr)
  /\ preprocess_frame cv2_resize (Some frame) = Ret (Some fr).
Proof.
  intros Hshape. unfold _maybe_resize, preprocess_frame, bind.
  change (fdiv (inject_Z 640)) with (fdiv 640).
  destruct (Z.max (height frame) (width frame) >? 640)%Z.
  - destruct (cv2_resize frame _) as [r|] eqn:R; [|discriminate].
    destruct (resize frame _) as [r'|] eqn:R'; [|discriminate].
    intros H1 H2. injection H1 as <- _ _. injection H2 as <-.
    destruct (cv2_resize_shape frame _ _ r R) as [-> ->].
    destruct (Hshape frame _ _ r' R') as [-> ->].
    repeat split.
  - intros H1 H2. injection H1 as <- _ _. injection H2 as <-. repeat split.
Qed.

Lemma preprocess_agrees_with_pipeline_resize_witness :
  @preprocess_frame (list byte) Sample.resize (Some (mkFrame 1077 300 [x01]))
  = Ret (Some (mkFrame 639 178 [x01])).
Proof.
  refine (proj2 (@preprocess_agrees_with_pipeline_resize Sample.env Sample.resize
                   (mkFrame 1077 300 [x01]) (mkFrame 639 178 [x01])
                   (mkFrame 639 178 [x01]) (fdiv 640 1077) (fdiv 640 1077)
                   Sample.resize_shape _ _)); vm_compute; reflexivity.
Defined.

(** X16: the upload path.  An empty upload is refused with status 400 and
    "Empty file." before the decoder is called, whatever the decoder would
    do with it.  For other uploads the decoder decides: an image goes on, no
    image is refused with status 400 and "Unsupported or corrupt image.",
    which are exactly the buffers a websocket session answers with
    [decode_failed], and an exception of the decoder is not caught. *)
Theorem upload_is_read_then_decoded {E : External} (cfg : Config)
    (data : list byte) (busy : bool) (w : World) (a : Arrival) :
  @read_and_decode E [] = HTTPException 400 "Empty file."
  /\ (data <> [] ->
      read_and_decode data
      = match cv2_imdecode data with
        | Ret (Some img) => Done img
        | Ret None => HTTPException 400 "Unsupported or corrupt image."
        | Raise e => Unhandled e
        end)
  /\ (data <> [] -> received a = Ret data ->
      (read_and_decode data = HTTPException 400 "Unsupported or corrupt image."
       <-> ws_iteration cfg busy w a
           = Next busy (send_json (JError "decode_failed") w))).
Proof.
  split; [reflexivity|]. split.
  - intros Hne. destruct data as [|b data]; [contradiction | reflexivity].
  - intros Hne Hr. destruct data as [|b data]; [contradiction|].
    unfold read_and_decode, _read_all, _decode_image, ws_iteration. rewrite Hr.
    destruct (cv2_imdecode (b :: data)) as [[img|]|e].
    + split; [discriminate|]. destruct busy.
      * intros H. exfalso.
        apply (f_equal flow_world) in H. cbn [flow_world] in H.
        apply (f_equal outbox) in H. unfold send_json in H. cbn [outbox] in H.
        apply (f_equal (@List.length Json)) in H.
        rewrite length_app in H. cbn [List.length] in H. lia.
      * destruct (_detect_labels_and_boxes cfg img (clock a) (alert w)) as [[det al]|e];
          intros H; apply (f_equal flow_world) in H; cbn [flow_world] in H;
          apply (f_equal outbox) in H; unfold send_json in H; cbn [outbox] in H;
          apply app_inv_head in H; discriminate.
    + split; reflexivity.
    + split; discriminate.
Qed.

Lemma upload_is_read_then_decoded_witness :
  @read_and_decode Sample.env [x00]
  = HTTPException 400 "Unsupported or corrupt image."
  /\ @read_and_decode Sample.env (Sample.message 480 640 [x01])
     = Done (mkFrame 480 640 [x01]).
Proof.
  split.
  - apply (proj2 (proj2 (proj2 (@upload_is_read_then_decoded Sample.env default_config
                                  [x00] false Sample.world0 (Sample.arrival [x00] 0)))
                   ltac:(discriminate) eq_refl)).
    reflexivity.
  - rewrite (proj1 (proj2 (@upload_is_read_then_decoded Sample.env default_config
                             (Sample.message 480 640 [x01]) false Sample.world0
                             (Sample.arrival [x00] 0)))
               ltac:(discriminate)).
    reflexivity.
Defined.

(** A demonstration of X5 in the sample environment. *)
Lemma detection_lists_aligned_witness :
  let det :=
    {| labels := ["drowsy"%string]; boxes := [(0, 0, 640, 480)];
       confs := [8106479329266893 # 9007199254740992]; drowsy := true |} in
  List.length (labels det) = List.length (boxes det)
  /\ List.length (confs det) = List.length (boxes det).
Proof.
  cbv zeta.
  destruct (@detection_lists_aligned Sample.env default_config
              (mkFrame 480 640 [x01]) 100 initial_alert
              {| labels := ["drowsy"%string]; boxes := [(0, 0, 640, 480)];
                 confs := [8106479329266893 # 9007199254740992]; drowsy := true |}
              {| _last_alert_ts := 100; esp32_requests := ["crit"%string] |})
    as (H1 & H2 & _).
  - intros fr sx sy r bx cls E1 E2 E3 E4.
    vm_compute in E1. injection E1 as <- _ _.
    vm_compute in E2. injection E2 as <-.
    vm_compute in E3. injection E3 as <-.
    vm_compute in E4. injection E4 as <-.
    split; [reflexivity|]. intros cf Hc. vm_compute in Hc. injection Hc as <-. reflexivity.
  - vm_compute. reflexivity.
  - split; [exact H1 | exact H2].
Defined.

(** A demonstration of X9 in the sample environment: a drowsy frame, a
    disconnect, and a frame that is never looked at. *)
Lemma session_ends_at_first_exception_witness :
  exists w',
    @ws_infer Sample.env default_config Sample.world0
       [Sample.arrival (Sample.message 480 640 [x01]) 1700000000;
        {| received := Raise WebSocketDisconnect; clock := 1700000001 |};
        Sample.arrival (Sample.message 480 640 [x01]) 1700000002]
    = Ret (Returned w')
    /\ List.length (outbox w') = 1%nat.
Proof.
  destruct (proj2 (@session_ends_at_first_exception Sample.env default_config Sample.world0
                     [Sample.arrival (Sample.message 480 640 [x01]) 1700000000;
                      {| received := Raise WebSocketDisconnect; clock := 1700000001 |};
                      Sample.arrival (Sample.message 480 640 [x01]) 1700000002])
              [Sample.arrival (Sample.message 480 640 [x01]) 1700000000]
              {| received := Raise WebSocketDisconnect; clock := 1700000001 |}
              [Sample.arrival (Sample.message 480 640 [x01]) 1700000002]
              WebSocketDisconnect eq_refl
              ltac:(repeat constructor) eq_refl)
    as (w' & H1 & _ & H3).
  exists w'. split; [exact H1 | exact H3].
Defined.

(** X17: a resized frame is not resized again.  The image [_maybe_resize]
    returns has its longest edge within the limit, so a second call returns
    it as it is with scale 1.0: the model is never given an image above the
    limit. *)
Theorem maybe_resize_settles {E : External} (frame fr : Frame Pixels)
    (max_side : Z) (sx sy : Q) :
  (0 < height frame)%Z -> (0 < width frame)%Z -> (0 < max_side <= 2 ^ 40)%Z ->
  _maybe_resize frame max_side = Ret (fr, sx, sy) ->
  (Z.max (height fr) (width fr) <= max_side)%Z
  /\ _maybe_resize fr max_side = Ret (fr, 1, 1).
Proof.
  intros Hh Hw Hl Hres.
  assert (Hle : (Z.max (height fr) (width fr) <= max_side)%Z).
  { destruct (maybe_resize_cases frame max_side fr sx sy Hres)
      as [(Hm & -> & _ & _) | (Hm & Es & _ & Ew & Eh)].
    - exact Hm.
    - set (m := Z.max (height frame) (width frame)) in *.
      assert (Hhm : (0 < height frame <= m)%Z) by (unfold m; lia).
      assert (Hwm : (0 < width frame <= m)%Z) by (unfold m; lia).
      destruct (resized_edge (width frame) m max_side Hwm Hl) as (_ & _ & W).
      destruct (resized_edge (height frame) m max_side Hhm Hl) as (_ & _ & H).
      cbv zeta in W, H. rewrite <- Es in W, H. rewrite <- Ew in W. rewrite <- Eh in H.
      lia. }
  split; [exact Hle|]. unfold _maybe_resize.
  destruct (Z.gtb_spec (Z.max (height fr) (width fr)) max_side); [lia | reflexivity].
Qed.

Lemma maybe_resize_settles_witness :
  @_maybe_resize Sample.env (mkFrame 639 178 [x01]) 640
  = Ret (mkFrame 639 178 [x01], 1, 1).
Proof.
  refine (proj2 (@maybe_resize_settles Sample.env (mkFrame 1077 300 [x01])
                   (mkFrame 639 178 [x01]) 640 (fdiv 640 1077) (fdiv 640 1077)
                   eq_refl eq_refl _ _)).
  - split; [reflexivity | discriminate].
  - vm_compute. reflexivity.
Defined.

(** X18: a higher drowsiness threshold never adds drowsy frames.  When
    [update_thresholds] raises the threshold, every frame whose verdict is
    true under the new threshold had a true verdict under the old one. *)
Theorem higher_threshold_fewer_drowsy_frames (d : Detector.DrowsinessDetector)
    (t : Q) (at' : option Q) (bxs : list Detector.box) :
  Detector.drowsiness_threshold d <= t ->
  let d' := update_thresholds d (Some t) at' in
  frame_verdict (Detector.drowsiness_threshold d') bxs = true ->
  frame_verdict (Detector.drowsiness_threshold d) bxs = true.
Proof.
  intros Ht. cbv zeta. cbn [update_thresholds Detector.drowsiness_threshold].
  unfold frame_verdict. rewrite !scan_box_verdict. cbn [fst].
  intros [H | (c & p & Hin & Hc & Hp)]; [discriminate|].
  right. exists c, p. repeat split; try assumption. lra.
Qed.

Lemma higher_threshold_fewer_drowsy_frames_witness :
  frame_verdict (Detector.drowsiness_threshold Detector.init) [(1%Z, 9 # 10)] = true.
Proof.
  refine (higher_threshold_fewer_drowsy_frames Detector.init (8 # 10) None
            [(1%Z, 9 # 10)] _ _).
  - discriminate.
  - reflexivity.
Defined.

(** X19: [alert_threshold] is not read by [detect].  Setting it through
    [update_thresholds] changes no result of a run of [detect] calls, and
    the detector after the run differs in that field only. *)
Theorem alert_threshold_is_unused (frames : list Call) :
  forall (d : Detector.DrowsinessDetector) (t : Q),
    snd (detect_all (update_thresholds d None (Some t)) frames)
    = snd (detect_all d frames)
    /\ fst (detect_all (update_thresholds d None (Some t)) frames)
       = update_thresholds (fst (detect_all d frames)) None (Some t).
Proof.
  induction frames as [|r rest IH]; intros d t.
  - split; reflexivity.
  - rewrite !detect_all_cons. cbn [fst snd].
    assert (Hstep : Detector.detect (update_thresholds d None (Some t)) (fst r) (snd r)
                    = (update_thresholds (fst (Detector.detect d (fst r) (snd r)))
                         None (Some t),
                       snd (Detector.detect d (fst r) (snd r)))).
    { destruct r as [[bxs|e] [u|e']]; cbn [fst snd]; [| |reflexivity ..].
      - rewrite !detect_pushes_frame_verdict. reflexivity.
      - rewrite !detect_overlay_raises. reflexivity. }
    rewrite Hstep. cbn [fst snd].
    destruct (IH (fst (Detector.detect d (fst r) (snd r))) t) as [I1 I2].
    rewrite I1, I2. split; reflexivity.
Qed.
